(** * CRM GraphQL mutations (crm/schema.py): a shallow embedding

    The four mutation handlers of [crm/schema.py] are embedded as
    functions in a small state-and-exception monad over an in-memory
    relational store.  What lives outside the repository (Django's
    [EmailValidator] patterns, the database's own failures, Python's
    [repr] of containers, [int()] and the Unicode digits, the scale of
    the price column) is gathered in the [Django] class and stays
    abstract; everything the handlers themselves do is written out.

    A Python [str] is held as its UTF-8 bytes; a [float] is a binary64
    number. *)

From Stdlib Require Import PrimFloat.
From Stdlib Require FloatOps SpecFloat.
From Stdlib Require Import List String Ascii ZArith Bool Arith Lia.
From Stdlib Require Import Permutation DecimalString.
Import ListNotations.

Set Warnings "-inexact-float".

Local Open Scope string_scope.
Local Open Scope list_scope.
Local Open Scope Z_scope.

(** ** Python values

    Arguments decoded by [graphene.JSONString] are arbitrary JSON
    documents; keyword arguments of the typed mutations are [str] or
    [None].  JSON numbers are kept to integers. *)

#[warnings="-register-all"]
Inductive pyval : Type :=
| PNone
| PBool (b : bool)
| PInt (z : Z)
| PStr (s : string)
| PList (items : list pyval)
| PDict (entries : list (string * pyval)).

(** Truth value of an object, as tested by [if x] and [not x]. *)
Definition truthy (v : pyval) : bool :=
  match v with
  | PNone => false
  | PBool b => b
  | PInt z => negb (z =? 0)
  | PStr s => negb (s =? "")%string
  | PList items => match items with [] => false | _ :: _ => true end
  | PDict entries => match entries with [] => false | _ :: _ => true end
  end.

(** Structural comparison, used for the [email=...] lookup. *)
Fixpoint pyval_eqb (a b : pyval) {struct a} : bool :=
  match a, b with
  | PNone, PNone => true
  | PBool x, PBool y => Bool.eqb x y
  | PInt x, PInt y => x =? y
  | PStr x, PStr y => (x =? y)%string
  | PList xs, PList ys =>
      (fix items_eqb (xs ys : list pyval) {struct xs} : bool :=
         match xs, ys with
         | [], [] => true
         | x :: xs', y :: ys' => pyval_eqb x y && items_eqb xs' ys'
         | _, _ => false
         end) xs ys
  | PDict xs, PDict ys =>
      (fix entries_eqb (xs ys : list (string * pyval)) {struct xs} : bool :=
         match xs, ys with
         | [], [] => true
         | (k, x) :: xs', (l, y) :: ys' =>
             (k =? l)%string && pyval_eqb x y && entries_eqb xs' ys'
         | _, _ => false
         end) xs ys
  | _, _ => false
  end.

(** ** Strings *)

Definition str_of_nat (n : nat) : string :=
  NilEmpty.string_of_uint (Nat.to_uint n).

Definition str_of_Z (z : Z) : string :=
  NilZero.string_of_int (Z.to_int z).

Fixpoint contains_char (c : ascii) (s : string) : bool :=
  match s with
  | EmptyString => false
  | String d rest => Ascii.eqb c d || contains_char c rest
  end.

(** [s.startswith(p)] *)
Definition startswith (p s : string) : bool := String.prefix p s.

(** [s.replace(old, new)] for a one-character [old]. *)
Fixpoint replace (old : ascii) (new : string) (s : string) : string :=
  match s with
  | EmptyString => EmptyString
  | String d rest =>
      if Ascii.eqb d old then new ++ replace old new rest
      else String d (replace old new rest)
  end.

(** The bytes 0x80-0xBF continue a character that an earlier byte
    began. *)
Definition continues (b : ascii) : bool :=
  let n := nat_of_ascii b in (128 <=? n)%nat && (n <? 192)%nat.

Definition begins_inside (c : string) : bool :=
  match c with
  | EmptyString => false
  | String b _ => continues b
  end.

(** The characters of a [str]: each byte that begins a character,
    with the continuation bytes that follow it. *)
Fixpoint chars (s : string) : list string :=
  match s with
  | EmptyString => []
  | String b rest =>
      match chars rest with
      | [] => [String b EmptyString]
      | next :: more =>
          if begins_inside next then String b next :: more
          else String b EmptyString :: next :: more
      end
  end.

(** In the encoding of a [str] an ASCII byte is a character of its
    own: no continuation byte comes right after it. *)
Definition ascii_alone (s : string) : Prop :=
  forall b tail,
    In (String b tail) (chars s) -> (nat_of_ascii b <? 128)%nat = true ->
    tail = EmptyString.

(** The ASCII digits 0-9. *)
Definition ascii_digit (b : ascii) : bool :=
  let n := nat_of_ascii b in (48 <=? n)%nat && (n <=? 57)%nat.

Definition is_ascii (b : ascii) : bool := (nat_of_ascii b <? 128)%nat.

Fixpoint last_char (s : string) : option ascii :=
  match s with
  | EmptyString => None
  | String c EmptyString => Some c
  | String _ rest => last_char rest
  end.

(** ** The store (crm.models) *)

(** Modelled from the spec: [crm/models.py] is not among the sources.
    A customer has the fields of the spec's data model (identifier,
    name, email, phone), which are also the fields [CustomerType]
    exposes; a row keeps for each the value [create] was given. *)
Record Customer : Type := mkCustomer {
  c_id : Z;
  c_name : pyval;
  c_email : pyval;
  c_phone : pyval
}.

(** Modelled from the spec: the fields of [Product] (identifier, name,
    price, stock).  Prices and totals are [Decimal]s of a fixed scale,
    held as the integer count of the smallest unit. *)
Record Product : Type := mkProduct {
  p_id : Z;
  p_name : string;
  p_price : Z;
  p_stock : Z
}.

(** Modelled from the spec: the fields of [Order] (identifier, owning
    customer, total_amount, optional order_date); its products are
    the rows of the many-to-many table below. *)
Record Order : Type := mkOrder {
  o_id : Z;
  o_customer : Z;
  o_total_amount : Z;
  o_order_date : option Z
}.

(** Modelled from the spec: the entity store, one table per model,
    [order_products] for the many-to-many relation behind
    [Order.products] (rows: order id, product id), and the next key
    of each table. *)
Record Store : Type := mkStore {
  customer_table : list Customer;
  product_table : list Product;
  order_table : list Order;
  order_products : list (Z * Z);
  next_customer : Z;
  next_product : Z;
  next_order : Z
}.

Definition empty_store : Store := mkStore [] [] [] [] 1 1 1.

(** A row appended to its table takes the table's next key. *)
Definition insert_customer (c : Customer) (st : Store) : Store :=
  mkStore (customer_table st ++ [c]) (product_table st) (order_table st)
          (order_products st)
          (next_customer st + 1) (next_product st) (next_order st).

Definition insert_product (p : Product) (st : Store) : Store :=
  mkStore (customer_table st) (product_table st ++ [p]) (order_table st)
          (order_products st)
          (next_customer st) (next_product st + 1) (next_order st).

Definition insert_order (o : Order) (st : Store) : Store :=
  mkStore (customer_table st) (product_table st) (order_table st ++ [o])
          (order_products st)
          (next_customer st) (next_product st) (next_order st + 1).

Definition with_order_products (rows : list (Z * Z)) (st : Store) : Store :=
  mkStore (customer_table st) (product_table st) (order_table st)
          rows
          (next_customer st) (next_product st) (next_order st).

(** The writes a handler can issue. *)
Inductive write : Type :=
| InsertCustomer (name email phone : pyval)
| InsertProduct (name : string) (price : float) (stock : Z)
| InsertOrder (customer total_amount : Z) (order_date : option Z)
| SetProducts (order : Z) (product_ids : list Z).

(** The exceptions the handlers can meet.  [DatabaseError] stands for
    whatever a failed write raises: the database refusing the row, or
    a field refusing the value it is to keep (a price with more digits
    than its column has); the handlers catch none of these. *)
Inductive exn : Type :=
| ValidationError
| AttributeError
| TypeError
| DoesNotExist
| DatabaseError
| ValueError
| OverflowError.

(** ** What the framework supplies *)

Class Django : Type := {
  (** [EmailValidator]'s user and domain patterns, applied to a
      non-empty [str] that contains an at-sign. *)
  email_pattern : string -> bool;
  (** the exception [EmailValidator] ends in on a truthy value that is
      not a [str] *)
  email_nonstr : pyval -> exn;
  (** [str()] of a list or dict *)
  py_repr : pyval -> string;
  (** whether a write fails in a given state *)
  db_fault : Store -> write -> bool;
  (** [str.isdigit] outside ASCII: whether a character, given by its
      bytes, is a digit of the Unicode database *)
  unicode_digit : string -> bool;
  (** [int(text)], which a lookup by key applies to the id it is
      given; [None] when it raises ValueError *)
  to_int : string -> option Z;
  (** whether the database can take an integer as a key value *)
  key_in_range : Z -> bool;
  (** what [get(pk=...)] and [filter(pk__in=...)] end in when the
      integer is outside that range *)
  get_out_of_range : exn;
  filter_out_of_range : exn;
  (** the decimal the price column keeps for a float, in units of its
      last place *)
  price_column : float -> Z
}.

(** *** A backend for the examples *)

(** The full-width digits U+FF10 to U+FF19 (bytes EF BC 90-99). *)
Definition full_width_digit (c : string) : bool :=
  match c with
  | String b1 (String b2 (String b3 EmptyString)) =>
      (nat_of_ascii b1 =? 239)%nat && (nat_of_ascii b2 =? 188)%nat
      && (144 <=? nat_of_ascii b3)%nat && (nat_of_ascii b3 <=? 153)%nat
  | _ => false
  end.

Definition is_space (b : ascii) : bool :=
  let n := nat_of_ascii b in
  (n =? 32)%nat || ((9 <=? n)%nat && (n <=? 13)%nat).

Fixpoint lstrip (s : string) : string :=
  match s with
  | String b rest => if is_space b then lstrip rest else s
  | EmptyString => EmptyString
  end.

Fixpoint rstrip (s : string) : string :=
  match s with
  | EmptyString => EmptyString
  | String b rest =>
      match rstrip rest with
      | EmptyString => if is_space b then EmptyString else String b EmptyString
      | kept => String b kept
      end
  end.

(** Digits with single underscores between them, read from the left
    with the value so far; [after_digit] tells whether the previous
    byte was a digit. *)
Fixpoint digits_value (s : string) (so_far : Z) (after_digit : bool)
  : option Z :=
  match s with
  | EmptyString => if after_digit then Some so_far else None
  | String b rest =>
      if ascii_digit b
      then digits_value rest (10 * so_far + Z.of_nat (nat_of_ascii b - 48)) true
      else if (nat_of_ascii b =? 95)%nat && after_digit
           then digits_value rest so_far false
           else None
  end.

(** [int(text)] on ASCII text: blanks around, a sign, decimal digits.
    Text with other characters is turned down, the digits of other
    scripts that Python reads among them; the examples keep to ASCII
    ids. *)
Definition ascii_int (text : string) : option Z :=
  match rstrip (lstrip text) with
  | String "-" rest => option_map Z.opp (digits_value rest 0 false)
  | String "+" rest => digits_value rest 0 false
  | body => digits_value body 0 false
  end.

(** A float rounded to two decimal places, half to even. *)
Definition cents (price : float) : Z :=
  match FloatOps.Prim2SF price with
  | SpecFloat.S754_finite negative m e =>
      let n := Z.pos m * 100 in
      let q :=
        if 0 <=? e then n * 2 ^ e
        else
          let d := 2 ^ (- e) in
          let down := n / d in
          let r := n mod d in
          if 2 * r <? d then down
          else if d <? 2 * r then down + 1
          else if Z.even down then down else down + 1 in
      if negative then - q else q
  | _ => 0
  end.

(** A backend that accepts every address with an at-sign and never
    refuses a write, knows the full-width digits, reads ids as
    [ascii_int] does, keeps 64-bit keys and two decimal places; the
    examples run on it. *)
Definition lenient : Django := {|
  email_pattern := fun _ => true;
  email_nonstr := fun _ => TypeError;
  py_repr := fun _ => "[...]";
  db_fault := fun _ _ => false;
  unicode_digit := full_width_digit;
  to_int := ascii_int;
  key_in_range := fun z => (- 2 ^ 63 <=? z) && (z <? 2 ^ 63);
  get_out_of_range := OverflowError;
  filter_out_of_range := OverflowError;
  price_column := cents
|}.

(** A backend like [lenient] whose database refuses every customer
    row and every set of product links. *)
Definition refusing : Django := {|
  email_pattern := fun _ => true;
  email_nonstr := fun _ => TypeError;
  py_repr := fun _ => "[...]";
  db_fault := fun _ w =>
    match w with
    | InsertCustomer _ _ _ => true
    | SetProducts _ _ => true
    | _ => false
    end;
  unicode_digit := full_width_digit;
  to_int := ascii_int;
  key_in_range := fun z => (- 2 ^ 63 <=? z) && (z <? 2 ^ 63);
  get_out_of_range := OverflowError;
  filter_out_of_range := OverflowError;
  price_column := cents
|}.

(** ** Outcomes and the handler monad *)

Inductive outcome (A : Type) : Type :=
| Returns (a : A)
| Raises (e : exn).
Arguments Returns {A} a.
Arguments Raises {A} e.

(** A computation reads and writes the store; when it raises, the
    store is the one reached at the point of the raise (autocommit). *)
Definition M (A : Type) : Type := Store -> outcome A * Store.

Definition ret {A} (a : A) : M A := fun st => (Returns a, st).

Definition bind {A B} (m : M A) (k : A -> M B) : M B :=
  fun st =>
    match m st with
    | (Returns a, st') => k a st'
    | (Raises e, st') => (Raises e, st')
    end.

Definition lift {A} (r : outcome A) : M A := fun st => (r, st).

Definition query {A} (q : Store -> A) : M A := fun st => (Returns (q st), st).

Notation "x <- m ;; k" := (bind m (fun x => k))
  (at level 61, m at next level, right associativity).

(** [with transaction.atomic(): body] -- the writes of [body] are kept
    when it returns and undone when an exception leaves the block;
    the exception itself propagates. *)
Definition atomic {A} (body : M A) : M A :=
  fun st =>
    match body st with
    | (Returns a, st') => (Returns a, st')
    | (Raises e, _) => (Raises e, st)
    end.

Definition try_except {A B} (body : M A) (caught : exn -> bool)
    (handler : M B) (orelse : A -> M B) : M B :=
  fun st =>
    match body st with
    | (Returns a, st') => orelse a st'
    | (Raises e, st') => if caught e then handler st' else (Raises e, st')
    end.

Definition is_ValidationError (e : exn) : bool :=
  match e with ValidationError => true | _ => false end.

Definition is_DoesNotExist (e : exn) : bool :=
  match e with DoesNotExist => true | _ => false end.

(** ** Python built-ins used by the handlers *)

(** [data.get(key)]: the value under [key], [None] when the key is
    missing, [AttributeError] when [data] is not a dict. *)
Fixpoint lookup (key : string) (entries : list (string * pyval)) : pyval :=
  match entries with
  | [] => PNone
  | (k, v) :: rest => if (k =? key)%string then v else lookup key rest
  end.

Definition get (data : pyval) (key : string) : outcome pyval :=
  match data with
  | PDict entries => Returns (lookup key entries)
  | _ => Raises AttributeError
  end.

(** [sum(xs)] *)
Definition sum (xs : list Z) : Z := fold_left Z.add xs 0.

Section Framework.
Context `{Django}.

(** [f"{v}"] *)
Definition format (v : pyval) : string :=
  match v with
  | PNone => "None"
  | PBool true => "True"
  | PBool false => "False"
  | PInt z => str_of_Z z
  | PStr s => s
  | _ => py_repr v
  end.

(** [django.core.validators.validate_email].  The validator opens
    with [if not value or "@" not in value: raise ValidationError]; a
    [str] that passes goes through its patterns, and a truthy value
    of another type ends in whatever exception the validator runs
    into. *)
Definition validate_email (value : pyval) : outcome unit :=
  if negb (truthy value) then Raises ValidationError
  else match value with
       | PStr s =>
           if negb (contains_char "@" s) then Raises ValidationError
           else if email_pattern s then Returns tt
           else Raises ValidationError
       | _ => Raises (email_nonstr value)
       end.

(** Whether a character is a digit: 0-9 in ASCII, the Unicode
    database's word for any other. *)
Definition is_digit (c : string) : bool :=
  match c with
  | String b EmptyString => if is_ascii b then ascii_digit b else unicode_digit c
  | _ => unicode_digit c
  end.

(** [s.isdigit()]: every character a digit, and at least one. *)
Definition isdigit (s : string) : bool :=
  match chars s with
  | [] => false
  | cs => forallb is_digit cs
  end.

(** The condition
    [phone and not (phone.startswith("+") or phone.replace("-", "").isdigit())],
    shared by both customer mutations. *)
Definition phone_rejected (phone : pyval) : outcome bool :=
  if truthy phone then
    match phone with
    | PStr s => Returns (negb (startswith "+" s || isdigit (replace "-" "" s)))
    | _ => Raises AttributeError
    end
  else Returns false.

End Framework.

(** ** The object managers *)

Module Customers.
Section Manager.
Context `{Django}.

(** [Customer.objects.filter(email=email)] *)
Definition filter_email (email : pyval) (st : Store) : list Customer :=
  filter (fun c => pyval_eqb (c_email c) email) (customer_table st).

(** [Customer.objects.create(name=..., email=..., phone=...)] *)
Definition create (name email phone : pyval) : M Customer :=
  fun st =>
    if db_fault st (InsertCustomer name email phone)
    then (Raises DatabaseError, st)
    else
      let c := mkCustomer (next_customer st) name email phone in
      (Returns c, insert_customer c st).

(** [Customer.objects.get(pk=pk)] for the id text a [graphene.ID]
    argument arrives as: the text goes through [int()], the integer
    must be one the database takes, and then the row is looked up. *)
Definition get (pk : string) : M Customer :=
  fun st =>
    match to_int pk with
    | None => (Raises ValueError, st)
    | Some key =>
        if key_in_range key then
          match find (fun c => c_id c =? key) (customer_table st) with
          | Some c => (Returns c, st)
          | None => (Raises DoesNotExist, st)
          end
        else (Raises get_out_of_range, st)
    end.

End Manager.
End Customers.

Module Products.
Section Manager.
Context `{Django}.

(** The integers a [pk__in=ids] lookup is made with: a null entry is
    dropped, every other id goes through [int()]; [None] when one of
    them raises ValueError. *)
Fixpoint prepare (ids : list (option string)) : option (list Z) :=
  match ids with
  | [] => Some []
  | None :: rest => prepare rest
  | Some text :: rest =>
      match to_int text with
      | None => None
      | Some key => option_map (cons key) (prepare rest)
      end
  end.

(** The keys of a [pk__in=ids] lookup, or the exception it ends in. *)
Definition pk_in (ids : list (option string)) : outcome (list Z) :=
  match prepare ids with
  | None => Raises ValueError
  | Some keys =>
      if forallb key_in_range keys then Returns keys
      else Raises filter_out_of_range
  end.

(** The rows whose key is among [keys], each once, in table order. *)
Definition with_keys (keys : list Z) (st : Store) : list Product :=
  filter (fun p => existsb (Z.eqb (p_id p)) keys) (product_table st).

(** [Product.objects.filter(pk__in=ids)], evaluated. *)
Definition filter_pk_in (ids : list (option string)) : M (list Product) :=
  keys <- lift (pk_in ids);;
  query (with_keys keys).

(** The object [create] hands back: the key it got and the values it
    was given. *)
Record Object : Type := mkObject {
  id : Z;
  name : string;
  price : float;
  stock : Z
}.

(** [Product.objects.create(name=..., price=..., stock=...)]: the row
    keeps the price as the price column stores it. *)
Definition create (name : string) (price : float) (stock : Z) : M Object :=
  fun st =>
    if db_fault st (InsertProduct name price stock)
    then (Raises DatabaseError, st)
    else
      let p := mkProduct (next_product st) name (price_column price) stock in
      (Returns (mkObject (next_product st) name price stock),
       insert_product p st).

End Manager.
End Products.

Module Orders.
Section Manager.
Context `{Django}.

(** [Order.objects.create(customer=..., total_amount=..., order_date=...)] *)
Definition create (customer : Customer) (total_amount : Z)
    (order_date : option Z) : M Order :=
  fun st =>
    if db_fault st (InsertOrder (c_id customer) total_amount order_date)
    then (Raises DatabaseError, st)
    else
      let o := mkOrder (next_order st) (c_id customer) total_amount order_date in
      (Returns o, insert_order o st).

Definition linked (rows : list (Z * Z)) (order product : Z) : bool :=
  existsb (fun r => (fst r =? order) && (snd r =? product)) rows.

(** [order.products.set(objs)]: rows of the order whose product is not
    among [objs] go, rows for the products not yet linked are added. *)
Definition set_products (order : Order) (objs : list Product) : M unit :=
  fun st =>
    let ids := map p_id objs in
    if db_fault st (SetProducts (o_id order) ids)
    then (Raises DatabaseError, st)
    else
      let old := order_products st in
      let kept :=
        filter (fun r => negb (fst r =? o_id order)
                         || existsb (Z.eqb (snd r)) ids) old in
      let added :=
        map (fun p => (o_id order, p))
            (filter (fun p => negb (linked old (o_id order) p)) ids) in
      (Returns tt, with_order_products (kept ++ added) st).

(** The products attached to an order, read back from the store. *)
Definition products_of (st : Store) (order : Z) : list Product :=
  filter (fun p => linked (order_products st) order (p_id p)) (product_table st).

End Manager.
End Orders.

(** [queryset.exists()] *)
Definition exists_ {A} (rows : list A) : bool :=
  match rows with [] => false | _ :: _ => true end.

(** ** The mutations *)

Module CreateCustomer.

Record Payload : Type := mkPayload {
  customer : option Customer;
  message : string
}.

Section Mutation.
Context `{Django}.

(** An optional [str] keyword argument as the value the handler sees. *)
Definition optional (phone : option string) : pyval :=
  match phone with
  | Some s => PStr s
  | None => PNone
  end.

Definition mutate (name email : string) (phone : option string) : M Payload :=
  try_except (lift (validate_email (PStr email))) is_ValidationError
    (ret (mkPayload None "Invalid email format"))
    (fun _ =>
       taken <- query (fun st => exists_ (Customers.filter_email (PStr email) st));;
       if taken then ret (mkPayload None "Email already exists")
       else
         bad <- lift (phone_rejected (optional phone));;
         if bad then ret (mkPayload None "Invalid phone format")
         else
           customer <- Customers.create (PStr name) (PStr email) (optional phone);;
           ret (mkPayload (Some customer) "Customer created successfully")).

End Mutation.
End CreateCustomer.

Module BulkCreateCustomers.

Record Payload : Type := mkPayload {
  customers : list Customer;
  errors : list string
}.

Section Mutation.
Context `{Django}.

Definition invalid_email (idx : nat) (email : pyval) : string :=
  ("Row " ++ str_of_nat (idx + 1) ++ ": Invalid email " ++ format email)%string.

Definition email_exists (idx : nat) (email : pyval) : string :=
  ("Row " ++ str_of_nat (idx + 1) ++ ": Email already exists ("
     ++ format email ++ ")")%string.

Definition invalid_phone (idx : nat) (phone : pyval) : string :=
  ("Row " ++ str_of_nat (idx + 1) ++ ": Invalid phone format ("
     ++ format phone ++ ")")%string.

(** One turn of the [for] loop on the two local lists
    [created_customers] and [errors]. *)
Definition body (idx : nat) (data : pyval)
    (created_customers : list Customer) (errors : list string)
  : M (list Customer * list string) :=
  name <- lift (get data "name");;
  email <- lift (get data "email");;
  phone <- lift (get data "phone");;
  try_except (lift (validate_email email)) is_ValidationError
    (ret (created_customers, errors ++ [invalid_email idx email]))
    (fun _ =>
       taken <- query (fun st => exists_ (Customers.filter_email email st));;
       if taken then ret (created_customers, errors ++ [email_exists idx email])
       else
         bad <- lift (phone_rejected phone);;
         if bad then ret (created_customers, errors ++ [invalid_phone idx phone])
         else
           customer <- Customers.create name email phone;;
           ret (created_customers ++ [customer], errors)).

(** [for idx, data in enumerate(input)] from position [idx] on. *)
Fixpoint for_each (idx : nat) (input : list pyval)
    (created_customers : list Customer) (errors : list string)
  : M (list Customer * list string) :=
  match input with
  | [] => ret (created_customers, errors)
  | data :: rest =>
      acc <- body idx data created_customers errors;;
      for_each (S idx) rest (fst acc) (snd acc)
  end.

Definition mutate (input : list pyval) : M Payload :=
  acc <- atomic (for_each 0 input [] []);;
  ret (mkPayload (fst acc) (snd acc)).

End Mutation.
End BulkCreateCustomers.

Module CreateProduct.

Record Payload : Type := mkPayload {
  product : option Products.Object;
  message : string
}.

Section Mutation.
Context `{Django}.

(** [price] is a [graphene.Float]; [stock] is an optional
    [graphene.Int] with default 0, so it is an integer, or [None] when
    the caller sends an explicit null, and [None < 0] is a TypeError. *)
Definition mutate (name : string) (price : float) (stock : option Z)
  : M Payload :=
  if (price <=? 0)%float then ret (mkPayload None "Price must be positive")
  else
    match stock with
    | None => lift (Raises TypeError)
    | Some stock =>
        if stock <? 0 then ret (mkPayload None "Stock cannot be negative")
        else
          product <- Products.create name price stock;;
          ret (mkPayload (Some product) "Product created successfully")
    end.

End Mutation.
End CreateProduct.

Module CreateOrder.

Record Payload : Type := mkPayload {
  order : option Order;
  message : string
}.

Section Mutation.
Context `{Django}.

(** [customer_id] and the entries of [product_ids] are [graphene.ID]
    arguments: they arrive as text, an entry of the list possibly as
    null. *)
Definition mutate (customer_id : string) (product_ids : list (option string))
    (order_date : option Z) : M Payload :=
  try_except (Customers.get customer_id) is_DoesNotExist
    (ret (mkPayload None ("Invalid customer ID " ++ customer_id)%string))
    (fun customer =>
       products <- Products.filter_pk_in product_ids;;
       if negb (exists_ products) then ret (mkPayload None "No valid products found")
       else if negb (List.length products =? List.length product_ids)%nat
       then ret (mkPayload None "Some product IDs are invalid")
       else
         let total_amount := sum (map p_price products) in
         order <- Orders.create customer total_amount order_date;;
         _ <- Orders.set_products order products;;
         ret (mkPayload (Some order) "Order created successfully")).

End Mutation.
End CreateOrder.

(** [class Mutation]: the schema's four mutation fields. *)
Module Mutation.

Inductive field : Type :=
| create_customer (name email : string) (phone : option string)
| bulk_create_customers (input : list pyval)
| create_product (name : string) (price : float) (stock : option Z)
| create_order (customer_id : string) (product_ids : list (option string))
               (order_date : option Z).

Inductive payload : Type :=
| CustomerPayload (p : CreateCustomer.Payload)
| CustomersPayload (p : BulkCreateCustomers.Payload)
| ProductPayload (p : CreateProduct.Payload)
| OrderPayload (p : CreateOrder.Payload).

Section Schema.
Context `{Django}.

Definition resolve (f : field) : M payload :=
  match f with
  | create_customer name email phone =>
      p <- CreateCustomer.mutate name email phone;; ret (CustomerPayload p)
  | bulk_create_customers input =>
      p <- BulkCreateCustomers.mutate input;; ret (CustomersPayload p)
  | create_product name price stock =>
      p <- CreateProduct.mutate name price stock;; ret (ProductPayload p)
  | create_order customer_id product_ids order_date =>
      p <- CreateOrder.mutate customer_id product_ids order_date;;
      ret (OrderPayload p)
  end.

(** The stores a sequence of answered mutation calls leads to. *)
Inductive reachable (st0 : Store) : Store -> Prop :=
| reach_start : reachable st0 st0
| reach_call (st st' : Store) (f : field) (p : payload) :
    reachable st0 st ->
    resolve f st = (Returns p, st') ->
    reachable st0 st'.

End Schema.
End Mutation.

(** ** Store invariants (crm.models)

    Keys are handed out in increasing order, the link table only
    mentions keys that were handed out, and every order's
    [total_amount] is the sum of the prices of its products. *)
Record consistent (st : Store) : Prop := mkConsistent {
  product_keys_unique : NoDup (map p_id (product_table st));
  product_keys_fresh :
    forall p, In p (product_table st) -> p_id p < next_product st;
  order_keys_fresh :
    forall o, In o (order_table st) -> o_id o < next_order st;
  link_keys_fresh :
    forall r, In r (order_products st) ->
              fst r < next_order st /\ snd r < next_product st;
  totals_derived :
    forall o, In o (order_table st) ->
              o_total_amount o =
              sum (map p_price (Orders.products_of st (o_id o)))
}.

(** The id is the text of the key of a customer in the store. *)
Definition names_customer `{Django} (customer_id : string) (st : Store)
  : Prop :=
  exists key c,
    to_int customer_id = Some key /\ key_in_range key = true /\
    In c (customer_table st) /\ c_id c = key.

(** ** Sample data

    The rows [seed_db.py] creates on a fresh database: two customers,
    two products, and Alice's order for both products. *)
Definition alice : Customer :=
  mkCustomer 1 (PStr "Alice") (PStr "alice@example.com") (PStr "+1234567890").

Definition bob : Customer :=
  mkCustomer 2 (PStr "Bob") (PStr "bob@example.com") PNone.

Definition laptop : Product := mkProduct 1 "Laptop" 99999 10.

Definition phone : Product := mkProduct 2 "Phone" 49999 20.

Definition seeded : Store :=
  mkStore [alice; bob] [laptop; phone]
          [mkOrder 1 1 (p_price laptop + p_price phone) None]
          [(1, 1); (1, 2)]
          3 3 2.

(** A bulk record with the three fields a caller is expected to send. *)
Definition record (name email : string) (phone : pyval) : pyval :=
  PDict [("name", PStr name); ("email", PStr email); ("phone", phone)].

(** ** Customer table invariants (crm.models)

    No two customers share an email or a key, and the key counter is
    ahead of every key in use. *)
Record customers_unique (st : Store) : Prop := mkCustomersUnique {
  emails_unique : NoDup (map c_email (customer_table st));
  customer_keys_unique : NoDup (map c_id (customer_table st));
  customer_keys_fresh :
    forall c, In c (customer_table st) -> c_id c < next_customer st
}.

(** ** References between the tables (crm.models)

    Every order belongs to a customer in the store and has at least
    one product; every link row joins an order and a product that are
    in the store. *)
Record referential (st : Store) : Prop := mkReferential {
  order_customer_exists :
    forall o, In o (order_table st) ->
      exists c, In c (customer_table st) /\ c_id c = o_customer o;
  order_has_products :
    forall o, In o (order_table st) ->
      Orders.products_of st (o_id o) <> [];
  link_order_exists :
    forall r, In r (order_products st) ->
      exists o, In o (order_table st) /\ o_id o = fst r;
  link_product_exists :
    forall r, In r (order_products st) ->
      exists p, In p (product_table st) /\ p_id p = snd r
}.

(** ** One createCustomer call per row

    The arguments of a createCustomer call as a bulk record, and the
    calls made one after the other, each on the store the previous one
    left. *)
Definition as_record (row : string * string * option string) : pyval :=
  let '(name, email, phone) := row in
  PDict [("name", PStr name); ("email", PStr email);
         ("phone", CreateCustomer.optional phone)].

Section OneByOne.
Context `{Django}.

Fixpoint create_each (rows : list (string * string * option string))
  : M (list CreateCustomer.Payload) :=
  match rows with
  | [] => ret []
  | (name, email, phone) :: rest =>
      p <- CreateCustomer.mutate name email phone;;
      ps <- create_each rest;;
      ret (p :: ps)
  end.

End OneByOne.

(** The customers a list of createCustomer answers carries. *)
Definition created_by (ps : list CreateCustomer.Payload) : list Customer :=
  flat_map (fun p => match CreateCustomer.customer p with
                     | Some c => [c]
                     | None => []
                     end) ps.

(** The answers that carry no customer. *)
Definition refused_by (ps : list CreateCustomer.Payload)
  : list CreateCustomer.Payload :=
  filter (fun p => match CreateCustomer.customer p with
                   | Some _ => false
                   | None => true
                   end) ps.

(** * Properties *)

(** Unfolds the monad's plumbing so that a handler reads as nested
    case analysis on the store. *)
Ltac run_monad :=
  unfold bind, try_except, lift, query, ret, atomic in *.

(** Splits on the first test a goal or hypothesis is stuck on. *)
Ltac split_test :=
  match goal with
  | |- context [match ?x with _ => _ end] => destruct x eqn:?
  | H : context [match ?x with _ => _ end] |- _ => destruct x eqn:?
  end.

Lemma last_char_append (s t : string) :
  t <> EmptyString -> last_char (s ++ t) = last_char t.
Proof.
  intros Ht. induction s as [|c s IH]; [reflexivity|].
  simpl. rewrite IH.
  destruct (s ++ t)%string eqn:E; [|reflexivity].
  destruct s; simpl in E; [contradiction|discriminate].
Qed.

Section ValidationFacts.
Context `{Django}.

(** On a [str], the validator either accepts or raises
    [ValidationError]; nothing else can come out of it. *)
Lemma validate_email_str (s : string) :
  validate_email (PStr s) = Returns tt \/
  validate_email (PStr s) = Raises ValidationError.
Proof.
  unfold validate_email.
  destruct (negb (truthy (PStr s))); auto.
  destruct (negb (contains_char "@" s)); auto.
  destruct (email_pattern s); auto.
Qed.

(** Only a [str] is ever accepted. *)
Lemma validate_email_accepts (v : pyval) :
  validate_email v = Returns tt -> exists s, v = PStr s.
Proof.
  unfold validate_email.
  destruct (negb (truthy v)); [discriminate|].
  destruct v; try discriminate.
  intros _. now exists s.
Qed.

Lemma validate_email_none : validate_email PNone = Raises ValidationError.
Proof. reflexivity. Qed.

(** The phone test never fails on an optional [str] argument. *)
Lemma phone_rejected_optional (phone : option string) :
  exists b, phone_rejected (CreateCustomer.optional phone) = Returns b.
Proof.
  destruct phone as [s|]; simpl; unfold phone_rejected; simpl.
  - destruct (negb (s =? "")%string); eauto.
  - eauto.
Qed.

(** What the phone test accepts: nothing, the empty string, a string
    that starts with a plus sign, or digits with hyphens among them. *)
Lemma phone_accepted_iff (phone : option string) :
  phone_rejected (CreateCustomer.optional phone) = Returns false <->
  match phone with
  | None => True
  | Some s =>
      s = "" \/ startswith "+" s = true \/ isdigit (replace "-" "" s) = true
  end.
Proof.
  destruct phone as [s|]; simpl; unfold phone_rejected; simpl; [|tauto].
  destruct (String.eqb_spec s "") as [->|Hne]; simpl.
  - tauto.
  - split.
    + intros Hr. injection Hr as Hr. apply negb_false_iff in Hr.
      apply orb_true_iff in Hr. tauto.
    + intros [He|Hor]; [contradiction|].
      f_equal. apply negb_false_iff, orb_true_iff. exact Hor.
Qed.

End ValidationFacts.

Section CreateCustomerFacts.
Context `{Django}.

Import CreateCustomer.

(** The handler as a decision table. *)
Lemma create_customer_unfold (name email : string) (phone : option string)
    (st : Store) :
  mutate name email phone st =
  match validate_email (PStr email) with
  | Raises ValidationError => (Returns (mkPayload None "Invalid email format"), st)
  | Raises e => (Raises e, st)
  | Returns _ =>
      if exists_ (Customers.filter_email (PStr email) st)
      then (Returns (mkPayload None "Email already exists"), st)
      else
        match phone_rejected (optional phone) with
        | Raises e => (Raises e, st)
        | Returns true => (Returns (mkPayload None "Invalid phone format"), st)
        | Returns false =>
            match Customers.create (PStr name) (PStr email) (optional phone) st with
            | (Returns c, st') =>
                (Returns (mkPayload (Some c) "Customer created successfully"), st')
            | (Raises e, st') => (Raises e, st')
            end
        end
  end.
Proof.
  unfold mutate. run_monad.
  destruct (validate_email (PStr email)) as [[]|e]; [|destruct e; reflexivity].
  destruct (exists_ _); [reflexivity|].
  destruct (phone_rejected _) as [[|]|e]; reflexivity.
Qed.

(** C4 -- createCustomer reports the first failing check, in the
    order email format, email uniqueness, phone format, each with its
    own message and a null customer; whenever no customer is returned
    the store is the one the call started from. *)
Theorem create_customer_first_failure_wins
    (name email : string) (phone : option string) (st : Store) :
  (validate_email (PStr email) = Raises ValidationError ->
   mutate name email phone st =
   (Returns (mkPayload None "Invalid email format"), st)) /\
  (validate_email (PStr email) = Returns tt ->
   exists_ (Customers.filter_email (PStr email) st) = true ->
   mutate name email phone st =
   (Returns (mkPayload None "Email already exists"), st)) /\
  (validate_email (PStr email) = Returns tt ->
   exists_ (Customers.filter_email (PStr email) st) = false ->
   phone_rejected (optional phone) = Returns true ->
   mutate name email phone st =
   (Returns (mkPayload None "Invalid phone format"), st)) /\
  (forall p st',
     mutate name email phone st = (Returns p, st') ->
     customer p = None ->
     st' = st /\
     (message p = "Invalid email format" \/
      message p = "Email already exists" \/
      message p = "Invalid phone format")).
Proof.
  rewrite create_customer_unfold.
  split; [intros ->; reflexivity|].
  split; [intros -> ->; reflexivity|].
  split; [intros -> -> ->; reflexivity|].
  intros p st'. unfold Customers.create.
  destruct (validate_email (PStr email)) as [[]|[]];
    try discriminate.
  - destruct (exists_ _).
    + intros E _. injection E as <- <-. simpl. auto.
    + destruct (phone_rejected _) as [[|]|e]; try discriminate.
      * intros E _. injection E as <- <-. simpl. auto.
      * destruct (db_fault _ _); try discriminate.
        intros E. injection E as <- <-. discriminate.
  - intros E _. injection E as <- <-. simpl. auto.
Qed.

(** C10 -- the name is never looked at: with an accepted email that
    no customer has yet, an accepted or absent phone and a database
    that takes the insert, every name (the empty one too) is stored
    as given and the call answers "Customer created successfully". *)
Theorem create_customer_any_name
    (name email : string) (phone : option string) (st : Store) :
  validate_email (PStr email) = Returns tt ->
  exists_ (Customers.filter_email (PStr email) st) = false ->
  phone_rejected (optional phone) = Returns false ->
  db_fault st (InsertCustomer (PStr name) (PStr email) (optional phone)) = false ->
  let c := mkCustomer (next_customer st) (PStr name) (PStr email)
                      (optional phone) in
  mutate name email phone st =
  (Returns (mkPayload (Some c) "Customer created successfully"),
   insert_customer c st) /\
  c_name c = PStr name /\
  customer_table (insert_customer c st) = customer_table st ++ [c].
Proof.
  intros Hv Hu Hp Hdb.
  rewrite create_customer_unfold, Hv, Hu, Hp.
  unfold Customers.create. rewrite Hdb.
  simpl. repeat split.
Qed.

End CreateCustomerFacts.

Section CreateOrderFacts.
Context `{Django}.

Import CreateOrder.


Lemma get_customer_present (pk : string) (st : Store) :
  names_customer pk st ->
  exists c, Customers.get pk st = (Returns c, st) /\
            to_int pk = Some (c_id c) /\ In c (customer_table st).
Proof.
  intros (key & c & Hint & Hrange & Hin & Hid). unfold Customers.get.
  rewrite Hint, Hrange.
  destruct (find _ _) as [c'|] eqn:E.
  - exists c'. split; [reflexivity|].
    apply find_some in E. destruct E as [Hin' Heq].
    apply Z.eqb_eq in Heq. rewrite Heq. auto.
  - exfalso. apply (find_none _ _ E) in Hin.
    rewrite Hid, Z.eqb_refl in Hin. discriminate.
Qed.

Lemma get_customer_returns (pk : string) (st st' : Store) (c : Customer) :
  Customers.get pk st = (Returns c, st') ->
  st' = st /\ In c (customer_table st) /\
  to_int pk = Some (c_id c) /\ key_in_range (c_id c) = true.
Proof.
  unfold Customers.get.
  destruct (to_int pk) as [key|]; [|discriminate].
  destruct (key_in_range key) eqn:Hrange; [|discriminate].
  destruct (find _ _) as [c'|] eqn:E; [|discriminate].
  intros R. injection R as <- <-. apply find_some in E.
  destruct E as [Hin Heq]. apply Z.eqb_eq in Heq. subst key. auto.
Qed.


(** The handler after the customer has been found. *)
Lemma create_order_unfold (customer_id : string)
    (product_ids : list (option string))
    (order_date : option Z) (st : Store) (c : Customer) :
  Customers.get customer_id st = (Returns c, st) ->
  mutate customer_id product_ids order_date st =
  match Products.pk_in product_ids with
  | Raises e => (Raises e, st)
  | Returns keys =>
      let products := Products.with_keys keys st in
      if negb (exists_ products)
      then (Returns (mkPayload None "No valid products found"), st)
      else if negb (List.length products =? List.length product_ids)%nat
      then (Returns (mkPayload None "Some product IDs are invalid"), st)
      else
        match Orders.create c (sum (map p_price products)) order_date st with
        | (Returns o, st1) =>
            match Orders.set_products o products st1 with
            | (Returns _, st2) =>
                (Returns (mkPayload (Some o) "Order created successfully"), st2)
            | (Raises e, st2) => (Raises e, st2)
            end
        | (Raises e, st1) => (Raises e, st1)
        end
  end.
Proof.
  intros Hget. unfold mutate, Products.filter_pk_in. run_monad.
  rewrite Hget. simpl.
  destruct (Products.pk_in product_ids) as [keys|e]; [|reflexivity].
  destruct (negb (exists_ _)); [reflexivity|].
  destruct (negb (_ =? _)%nat); [reflexivity|].
  destruct (Orders.create _ _ _ _) as [[o|e] st1]; [|reflexivity].
  destruct (Orders.set_products _ _ _) as [[u|e] st2]; reflexivity.
Qed.

(** *** Matching product ids *)

(** A lookup is made with at most one key per id, and with exactly
    one when no id is null. *)
Lemma prepare_length (ids : list (option string)) :
  forall keys, Products.prepare ids = Some keys ->
  (List.length keys <= List.length ids)%nat.
Proof.
  induction ids as [|[text|] rest IH]; simpl; intros keys E.
  - injection E as <-. simpl. lia.
  - destruct (to_int text) as [key|]; [|discriminate].
    destruct (Products.prepare rest) as [keys'|]; [|discriminate].
    injection E as <-. specialize (IH keys' eq_refl). simpl. lia.
  - apply IH in E. lia.
Qed.

Lemma pk_in_returns (ids : list (option string)) (keys : list Z) :
  Products.pk_in ids = Returns keys ->
  Products.prepare ids = Some keys /\
  (List.length keys <= List.length ids)%nat /\
  (forall key, In key keys -> key_in_range key = true).
Proof.
  unfold Products.pk_in.
  destruct (Products.prepare ids) as [keys'|] eqn:E; [|discriminate].
  destruct (forallb key_in_range keys') eqn:Hr; [|discriminate].
  intros R. injection R as <-.
  split; [reflexivity|]. split; [now apply prepare_length|].
  now apply forallb_forall.
Qed.

(** When there are as many keys as ids, they are the ids read in
    order. *)
Lemma prepare_full (ids : list (option string)) :
  forall keys, Products.prepare ids = Some keys ->
  List.length keys = List.length ids ->
  Forall2 (fun id key => exists text, id = Some text /\ to_int text = Some key)
          ids keys.
Proof.
  induction ids as [|[text|] rest IH]; simpl; intros keys E Hlen.
  - injection E as <-. constructor.
  - destruct (to_int text) as [key|] eqn:Hint; [|discriminate].
    destruct (Products.prepare rest) as [keys'|]; [|discriminate].
    injection E as <-. simpl in Hlen. constructor; [eauto|].
    apply IH; [reflexivity|lia].
  - apply prepare_length in E. lia.
Qed.

Lemma filter_pk_in_In (ids : list Z) (st : Store) (p : Product) :
  In p (Products.with_keys ids st) <->
  In p (product_table st) /\ In (p_id p) ids.
Proof.
  unfold Products.with_keys. rewrite filter_In, existsb_exists.
  split.
  - intros [Hin [x [Hx Heq]]]. apply Z.eqb_eq in Heq. now subst.
  - intros [Hin Hid]. split; [assumption|].
    exists (p_id p). split; [assumption|apply Z.eqb_refl].
Qed.

Lemma NoDup_map_filter {A B} (f : A -> B) (keep : A -> bool) (l : list A) :
  NoDup (map f l) -> NoDup (map f (filter keep l)).
Proof.
  induction l as [|a l IH]; simpl; intros Hnd; [constructor|].
  inversion Hnd as [|? ? Hnotin Hrest]; subst.
  destruct (keep a); simpl; [|auto].
  constructor; [|auto].
  intros Hin. apply Hnotin.
  apply in_map_iff in Hin. destruct Hin as [x [Hfx Hx]].
  apply filter_In in Hx. apply in_map_iff. exists x. tauto.
Qed.

Lemma matched_ids_incl (ids : list Z) (st : Store) :
  incl (map p_id (Products.with_keys ids st)) ids.
Proof.
  intros x Hx. apply in_map_iff in Hx. destruct Hx as [p [<- Hp]].
  now apply filter_pk_in_In in Hp.
Qed.

(** With unique primary keys the match cannot be longer than the
    request, and it is as long only when the request has no repeats. *)
Lemma matched_length (ids : list Z) (st : Store) :
  NoDup (map p_id (product_table st)) ->
  (List.length (Products.with_keys ids st) <= List.length ids)%nat /\
  (List.length (Products.with_keys ids st) = List.length ids -> NoDup ids).
Proof.
  intros Hpk.
  pose proof (NoDup_map_filter p_id
                (fun p => existsb (Z.eqb (p_id p)) ids) _ Hpk) as Hnd.
  fold (Products.with_keys ids st) in Hnd.
  pose proof (matched_ids_incl ids st) as Hincl.
  pose proof (NoDup_incl_length Hnd Hincl) as Hle.
  rewrite length_map in Hle. split; [exact Hle|].
  intros Heq. apply (NoDup_incl_NoDup Hnd); [|exact Hincl].
  rewrite length_map. lia.
Qed.

(** C5 -- a request whose ids are all keys of existing products but
    which names one of them twice matches fewer products than it has
    ids; for an existing customer the call then answers "Some product
    IDs are invalid" with a null order and leaves the store as it
    was. *)
Theorem create_order_repeated_product
    (customer_id : string) (product_ids : list (option string))
    (order_date : option Z) (st : Store) (keys : list Z) :
  NoDup (map p_id (product_table st)) ->
  names_customer customer_id st ->
  Products.pk_in product_ids = Returns keys ->
  (forall key, In key keys ->
     exists p, In p (product_table st) /\ p_id p = key) ->
  (exists key, (count_occ Z.eq_dec keys key > 1)%nat) ->
  (List.length (Products.with_keys keys st)
   < List.length product_ids)%nat /\
  mutate customer_id product_ids order_date st =
  (Returns (mkPayload None "Some product IDs are invalid"), st).
Proof.
  intros Hpk Hcust Hkeys Hall [id Hrep].
  destruct (pk_in_returns _ _ Hkeys) as (_ & Hlen & _).
  destruct (matched_length keys st Hpk) as [Hle Hnd].
  assert (Hlt : (List.length (Products.with_keys keys st)
                 < List.length product_ids)%nat).
  { destruct (Nat.eq_dec (List.length (Products.with_keys keys st))
                         (List.length keys)) as [Heq|Hne]; [|lia].
    apply Hnd in Heq.
    rewrite (NoDup_count_occ Z.eq_dec) in Heq. specialize (Heq id). lia. }
  split; [exact Hlt|].
  destruct (get_customer_present _ _ Hcust) as [c [Hget _]].
  rewrite (create_order_unfold _ _ _ _ _ Hget), Hkeys. cbv zeta.
  assert (Hin : In id keys).
  { apply (count_occ_In Z.eq_dec). lia. }
  destruct (Hall id Hin) as [p [Hp Hid]].
  assert (Hm : In p (Products.with_keys keys st)).
  { apply filter_pk_in_In. split; [assumption|now rewrite Hid]. }
  destruct (Products.with_keys keys st) as [|q qs] eqn:E;
    [contradiction|].
  simpl exists_. simpl negb at 1. cbv iota.
  replace (List.length (q :: qs) =? List.length product_ids)%nat with false;
    [reflexivity|].
  symmetry. apply Nat.eqb_neq. lia.
Qed.

End CreateOrderFacts.

Section BulkFacts.
Context `{Django}.

Import BulkCreateCustomers.

(** The call commits what the loop did when the loop returns, and
    restores the store when the loop raises. *)
Lemma bulk_mutate_unfold (input : list pyval) (st : Store) :
  mutate input st =
  match for_each 0 input [] [] st with
  | (Returns acc, st') => (Returns (mkPayload (fst acc) (snd acc)), st')
  | (Raises e, _) => (Raises e, st)
  end.
Proof.
  unfold mutate. run_monad.
  destruct (for_each 0 input [] [] st) as [[acc|e] st']; reflexivity.
Qed.

(** A record that is not a dict has no [get]. *)
Lemma body_not_dict (idx : nat) (data : pyval) (created : list Customer)
    (errs : list string) (st : Store) :
  (forall entries, data <> PDict entries) ->
  body idx data created errs st = (Raises AttributeError, st).
Proof.
  intros Hnd. unfold body. run_monad.
  destruct data; try reflexivity. now destruct (Hnd entries).
Qed.

(** One turn of the loop on a dict, as a decision table. *)
Lemma body_unfold (idx : nat) (entries : list (string * pyval))
    (created : list Customer) (errs : list string) (st : Store) :
  body idx (PDict entries) created errs st =
  let name := lookup "name" entries in
  let email := lookup "email" entries in
  let phone := lookup "phone" entries in
  match validate_email email with
  | Raises ValidationError =>
      (Returns (created, errs ++ [invalid_email idx email]), st)
  | Raises e => (Raises e, st)
  | Returns _ =>
      if exists_ (Customers.filter_email email st)
      then (Returns (created, errs ++ [email_exists idx email]), st)
      else
        match phone_rejected phone with
        | Raises e => (Raises e, st)
        | Returns true =>
            (Returns (created, errs ++ [invalid_phone idx phone]), st)
        | Returns false =>
            if db_fault st (InsertCustomer name email phone)
            then (Raises DatabaseError, st)
            else
              let c := mkCustomer (next_customer st) name email phone in
              (Returns (created ++ [c], errs), insert_customer c st)
        end
  end.
Proof.
  unfold body, Customers.create. run_monad.
  cbv beta iota zeta delta [get].
  destruct (validate_email _) as [[]|e]; [|destruct e; reflexivity].
  destruct (exists_ _); [reflexivity|].
  destruct (phone_rejected _) as [[|]|e]; try reflexivity.
  destruct (db_fault _ _); reflexivity.
Qed.

(** A turn that returns has either stored one accepted customer or
    recorded one error and touched nothing. *)
Lemma body_dichotomy (idx : nat) (data : pyval) (created : list Customer)
    (errs : list string) (st st' : Store)
    (acc : list Customer * list string) :
  body idx data created errs st = (Returns acc, st') ->
  (exists c,
     acc = (created ++ [c], errs) /\ st' = insert_customer c st /\
     validate_email (c_email c) = Returns tt /\
     exists_ (Customers.filter_email (c_email c) st) = false) \/
  (exists msg, acc = (created, errs ++ [msg]) /\ st' = st).
Proof.
  destruct data as [| | | | |entries];
    try (rewrite body_not_dict by (intros ?; discriminate); discriminate).
  rewrite body_unfold. cbv zeta.
  destruct (validate_email _) as [[]|[]] eqn:Hv; try discriminate.
  - destruct (exists_ _) eqn:Hu.
    + intros E. injection E as <- <-. right. eauto.
    + destruct (phone_rejected _) as [[|]|e]; try discriminate.
      * intros E. injection E as <- <-. right. eauto.
      * destruct (db_fault _ _); try discriminate.
        intros E. injection E as <- <-. left.
        eexists. repeat split; assumption.
  - intros E. injection E as <- <-. right. eauto.
Qed.

(** The customer a turn creates takes the table's next key. *)
Lemma body_created_key (idx : nat) (data : pyval) (created : list Customer)
    (errs : list string) (st st' : Store)
    (acc : list Customer * list string) :
  body idx data created errs st = (Returns acc, st') ->
  (exists c,
     acc = (created ++ [c], errs) /\ st' = insert_customer c st /\
     c_id c = next_customer st) \/
  (exists msg, acc = (created, errs ++ [msg]) /\ st' = st).
Proof.
  destruct data as [| | | | |entries];
    try (rewrite body_not_dict by (intros ?; discriminate); discriminate).
  rewrite body_unfold. cbv zeta.
  destruct (validate_email _) as [[]|[]]; try discriminate.
  - destruct (exists_ _).
    + intros E. injection E as <- <-. right. eauto.
    + destruct (phone_rejected _) as [[|]|e]; try discriminate.
      * intros E. injection E as <- <-. right. eauto.
      * destruct (db_fault _ _); try discriminate.
        intros E. injection E as <- <-. left.
        eexists. repeat split.
  - intros E. injection E as <- <-. right. eauto.
Qed.

(** The two local lists only ever grow at the end, so a turn run on
    empty lists tells what it does on any lists. *)
Lemma body_accumulates (idx : nat) (data : pyval) (created : list Customer)
    (errs : list string) (st : Store) :
  body idx data created errs st =
  match body idx data [] [] st with
  | (Returns acc, st') => (Returns (created ++ fst acc, errs ++ snd acc), st')
  | (Raises e, st') => (Raises e, st')
  end.
Proof.
  destruct data as [| | | | |entries];
    try (rewrite !body_not_dict by (intros ?; discriminate); reflexivity).
  rewrite !body_unfold. cbv zeta.
  destruct (validate_email _) as [[]|[]]; try reflexivity.
  - destruct (exists_ _); [simpl; now rewrite app_nil_r|].
    destruct (phone_rejected _) as [[|]|e]; try reflexivity.
    + simpl. now rewrite app_nil_r.
    + destruct (db_fault _ _); [reflexivity|].
      simpl. now rewrite app_nil_r.
  - simpl. now rewrite app_nil_r.
Qed.

Lemma for_each_accumulates (input : list pyval) :
  forall (idx : nat) (created : list Customer) (errs : list string)
         (st : Store),
  for_each idx input created errs st =
  match for_each idx input [] [] st with
  | (Returns acc, st') => (Returns (created ++ fst acc, errs ++ snd acc), st')
  | (Raises e, st') => (Raises e, st')
  end.
Proof.
  induction input as [|data rest IH]; intros idx created errs st.
  - simpl. unfold ret. simpl. now rewrite !app_nil_r.
  - simpl. unfold bind.
    rewrite (body_accumulates idx data created errs st).
    destruct (body idx data [] [] st) as [[[c1 e1]|x] st1]; [|reflexivity].
    simpl fst. simpl snd.
    rewrite (IH (S idx) (created ++ c1) (errs ++ e1) st1).
    rewrite (IH (S idx) c1 e1 st1).
    destruct (for_each (S idx) rest [] [] st1) as [[[c2 e2]|x] st2];
      [|reflexivity].
    simpl. now rewrite !app_assoc.
Qed.

(** Records are taken in input order: running a list is running its
    front part and then, from the position and state reached, the
    rest. *)
Lemma for_each_app (xs ys : list pyval) :
  forall (idx : nat) (created : list Customer) (errs : list string)
         (st : Store),
  for_each idx (xs ++ ys) created errs st =
  match for_each idx xs created errs st with
  | (Returns acc, st') =>
      for_each (idx + List.length xs) ys (fst acc) (snd acc) st'
  | (Raises e, st') => (Raises e, st')
  end.
Proof.
  induction xs as [|data rest IH]; intros idx created errs st.
  - simpl. unfold ret. simpl. now rewrite Nat.add_0_r.
  - simpl. unfold bind.
    destruct (body idx data created errs st) as [[acc|x] st1]; [|reflexivity].
    rewrite IH. now rewrite Nat.add_succ_r.
Qed.

(** What a returning loop has done: every record gave exactly one
    customer or one error, the new customers are the rows added to
    the customer table, each of them passed the email check against
    the table as it stood at its turn, and no other table moved. *)
Lemma for_each_returns (input : list pyval) :
  forall (idx : nat) (created : list Customer) (errs : list string)
         (st st' : Store) (acc : list Customer * list string),
  for_each idx input created errs st = (Returns acc, st') ->
  exists new new_errs,
    acc = (created ++ new, errs ++ new_errs) /\
    customer_table st' = customer_table st ++ new /\
    Forall (fun c => validate_email (c_email c) = Returns tt) new /\
    (List.length new + List.length new_errs = List.length input)%nat /\
    product_table st' = product_table st /\
    order_table st' = order_table st /\
    order_products st' = order_products st /\
    next_product st' = next_product st /\
    next_order st' = next_order st.
Proof.
  induction input as [|data rest IH]; intros idx created errs st st' acc.
  - simpl. unfold ret. intros E. injection E as <- <-.
    exists [], []. rewrite !app_nil_r. repeat split. constructor.
  - simpl. unfold bind.
    destruct (body idx data created errs st) as [[acc1|x] st1] eqn:Hb;
      [|discriminate].
    intros Hrest.
    apply IH in Hrest.
    destruct Hrest as (new & new_errs & -> & Ht & Hall & Hlen & Hp & Ho & Hl & Hnp & Hno).
    apply body_dichotomy in Hb.
    destruct Hb as [(c & -> & -> & Hv & _)|(msg & -> & ->)]; simpl fst; simpl snd.
    + exists (c :: new), new_errs.
      simpl in Ht, Hp, Ho, Hl, Hnp, Hno.
      rewrite <- !app_assoc in *. simpl.
      repeat split; try assumption.
      * constructor; assumption.
      * lia.
    + exists new, (msg :: new_errs).
      rewrite <- !app_assoc. simpl.
      repeat split; try assumption. lia.
Qed.

End BulkFacts.

Section BulkTheorems.
Context `{Django}.

Import BulkCreateCustomers.

(** The turn of the record that follows an already processed front
    part of the input. *)
Lemma for_each_turn (pre rest : list pyval) (data : pyval) (st st1 : Store)
    (c1 : list Customer) (e1 : list string) :
  for_each 0 pre [] [] st = (Returns (c1, e1), st1) ->
  for_each 0 (pre ++ data :: rest) [] [] st =
  match body (List.length pre) data c1 e1 st1 with
  | (Returns acc, st2) =>
      for_each (S (List.length pre)) rest (fst acc) (snd acc) st2
  | (Raises e, st2) => (Raises e, st2)
  end.
Proof.
  intros Hpre. rewrite for_each_app, Hpre. reflexivity.
Qed.

Lemma lookup_missing (key : string) (entries : list (string * pyval)) :
  ~ In key (map fst entries) -> lookup key entries = PNone.
Proof.
  induction entries as [|[k v] rest IH]; simpl; intros Hno; [reflexivity|].
  destruct (String.eqb_spec k key) as [->|Hne].
  - exfalso. apply Hno. now left.
  - apply IH. intros Hin. apply Hno. now right.
Qed.

Lemma exists_app {A} (xs ys : list A) :
  exists_ (xs ++ ys) = exists_ xs || exists_ ys.
Proof. destruct xs; reflexivity. Qed.

(** After an insert the email lookup finds what it found before,
    and the new row when the emails agree. *)
Lemma filter_email_insert (email : pyval) (c : Customer) (st : Store) :
  exists_ (Customers.filter_email email (insert_customer c st)) =
  exists_ (Customers.filter_email email st) || pyval_eqb (c_email c) email.
Proof.
  unfold Customers.filter_email. simpl. rewrite filter_app, exists_app.
  simpl. now destruct (pyval_eqb (c_email c) email).
Qed.

Lemma filter_email_present (c : Customer) (s : string) (st : Store) :
  In c (customer_table st) -> c_email c = PStr s ->
  exists_ (Customers.filter_email (PStr s) st) = true.
Proof.
  intros Hin He. unfold Customers.filter_email.
  assert (Hf : In c (filter (fun c0 => pyval_eqb (c_email c0) (PStr s))
                            (customer_table st))).
  { apply filter_In. split; [assumption|].
    rewrite He. simpl. apply String.eqb_refl. }
  destruct (filter _ _); [contradiction|reflexivity].
Qed.

(** C1 -- when anything raised inside a bulkCreateCustomers call
    goes uncaught, the call raises it and the store is the one the
    call started from.  That holds in particular when a front part of
    the input had already been processed and its accepted records
    written ([st1] holds them) before a later record raised. *)
Theorem bulk_create_rolls_back (input : list pyval) (st : Store) :
  (forall e st', mutate input st = (Raises e, st') -> st' = st) /\
  (forall pre data rest c1 e1 st1 e st2,
     input = pre ++ data :: rest ->
     for_each 0 pre [] [] st = (Returns (c1, e1), st1) ->
     body (List.length pre) data c1 e1 st1 = (Raises e, st2) ->
     customer_table st1 = customer_table st ++ c1 /\
     mutate input st = (Raises e, st)).
Proof.
  split.
  - intros e st'. rewrite bulk_mutate_unfold.
    destruct (for_each 0 input [] [] st) as [[acc|x] st1]; [discriminate|].
    intros E. now injection E.
  - intros pre data rest c1 e1 st1 e st2 -> Hpre Hbody.
    split.
    + apply for_each_returns in Hpre.
      destruct Hpre as (new & new_errs & E & Ht & _).
      simpl in E. injection E as -> ->. exact Ht.
    + rewrite bulk_mutate_unfold, (for_each_turn _ _ _ _ _ _ _ Hpre), Hbody.
      reflexivity.
Qed.

(** C2 -- the uniqueness check of a record runs against the store
    that holds the customers created by the earlier records of the
    same call: a record whose email was given to a customer created
    earlier in the call is rejected as a duplicate under its own row
    number.  In particular, for two records with one and the same
    accepted email that no customer has yet (the first with an
    accepted phone, the database taking the insert), the first is
    created and the second gives "Row 2: Email already exists (<email>)". *)
Theorem bulk_sequential_visibility :
  (forall pre entries rest st c1 e1 st1 c s,
     for_each 0 pre [] [] st = (Returns (c1, e1), st1) ->
     In c c1 ->
     c_email c = PStr s ->
     lookup "email" entries = PStr s ->
     for_each 0 (pre ++ PDict entries :: rest) [] [] st =
     for_each (S (List.length pre)) rest c1
       (e1 ++ [("Row " ++ str_of_nat (List.length pre + 1)
                  ++ ": Email already exists (" ++ s ++ ")")%string]) st1) /\
  (forall d1 d2 s st,
     lookup "email" d1 = PStr s ->
     lookup "email" d2 = PStr s ->
     validate_email (PStr s) = Returns tt ->
     exists_ (Customers.filter_email (PStr s) st) = false ->
     phone_rejected (lookup "phone" d1) = Returns false ->
     db_fault st (InsertCustomer (lookup "name" d1) (PStr s)
                                 (lookup "phone" d1)) = false ->
     let c := mkCustomer (next_customer st) (lookup "name" d1) (PStr s)
                         (lookup "phone" d1) in
     mutate [PDict d1; PDict d2] st =
     (Returns (mkPayload [c]
                 [("Row 2: Email already exists (" ++ s ++ ")")%string]),
      insert_customer c st)).
Proof.
  split.
  - intros pre entries rest st c1 e1 st1 c s Hpre Hin Hc He.
    rewrite (for_each_turn _ _ _ _ _ _ _ Hpre), body_unfold. cbv zeta.
    apply for_each_returns in Hpre.
    destruct Hpre as (new & new_errs & E & Ht & Hall & _).
    simpl in E. injection E as -> ->.
    rewrite Forall_forall in Hall. specialize (Hall c Hin).
    rewrite Hc in Hall. rewrite He, Hall.
    rewrite (filter_email_present c s st1).
    + reflexivity.
    + rewrite Ht. apply in_or_app. now right.
    + exact Hc.
  - intros d1 d2 s st H1 H2 Hv Hu Hp Hdb c.
    rewrite bulk_mutate_unfold. simpl for_each. unfold bind.
    rewrite body_unfold. cbv zeta. rewrite H1, Hv, Hu, Hp, Hdb.
    simpl fst. simpl snd.
    rewrite body_unfold. cbv zeta. rewrite H2, Hv.
    rewrite filter_email_insert. simpl c_email.
    simpl pyval_eqb. rewrite String.eqb_refl, orb_true_r.
    reflexivity.
Qed.

(** C9 -- a dict without an "email" entry is turned down by the email
    check like any malformed address: it adds the single entry
    "Row <i>: Invalid email None", writes nothing, and the loop goes
    on with the records after it. *)
Theorem bulk_missing_email_is_rejected
    (pre rest : list pyval) (entries : list (string * pyval))
    (st st1 : Store) (c1 : list Customer) (e1 : list string) :
  for_each 0 pre [] [] st = (Returns (c1, e1), st1) ->
  ~ In "email" (map fst entries) ->
  let entry :=
    ("Row " ++ str_of_nat (List.length pre + 1) ++ ": Invalid email None")%string in
  for_each 0 (pre ++ PDict entries :: rest) [] [] st =
  for_each (S (List.length pre)) rest c1 (e1 ++ [entry]) st1 /\
  mutate (pre ++ [PDict entries]) st =
  (Returns (mkPayload c1 (e1 ++ [entry])), st1).
Proof.
  intros Hpre Hno entry.
  assert (Hturn : forall rest',
            for_each 0 (pre ++ PDict entries :: rest') [] [] st =
            for_each (S (List.length pre)) rest' c1 (e1 ++ [entry]) st1).
  { intros rest'.
    rewrite (for_each_turn _ _ _ _ _ _ _ Hpre), body_unfold. cbv zeta.
    rewrite (lookup_missing _ _ Hno), validate_email_none.
    reflexivity. }
  split; [apply Hturn|].
  rewrite bulk_mutate_unfold, Hturn. reflexivity.
Qed.

(** C6, as the code has it -- a rejected record adds exactly one
    entry and the loop goes on from the same store: for a malformed
    email the entry is "Row <i>: Invalid email <email>", the value
    bare; for a duplicate email it is
    "Row <i>: Email already exists (<email>)" and for a malformed phone
    "Row <i>: Invalid phone format (<phone>)", the value in
    parentheses; <i> counts the records from 1. *)
Theorem bulk_error_entries
    (pre rest : list pyval) (entries : list (string * pyval))
    (st st1 : Store) (c1 : list Customer) (e1 : list string) :
  for_each 0 pre [] [] st = (Returns (c1, e1), st1) ->
  let email := lookup "email" entries in
  let phone := lookup "phone" entries in
  let row := str_of_nat (List.length pre + 1) in
  let goes_on_with entry :=
    for_each 0 (pre ++ PDict entries :: rest) [] [] st =
    for_each (S (List.length pre)) rest c1 (e1 ++ [entry]) st1 in
  (validate_email email = Raises ValidationError ->
   goes_on_with ("Row " ++ row ++ ": Invalid email " ++ format email)%string) /\
  (validate_email email = Returns tt ->
   exists_ (Customers.filter_email email st1) = true ->
   goes_on_with ("Row " ++ row ++ ": Email already exists ("
                   ++ format email ++ ")")%string) /\
  (validate_email email = Returns tt ->
   exists_ (Customers.filter_email email st1) = false ->
   phone_rejected phone = Returns true ->
   goes_on_with ("Row " ++ row ++ ": Invalid phone format ("
                   ++ format phone ++ ")")%string).
Proof.
  intros Hpre email phone row goes_on_with. unfold goes_on_with.
  rewrite (for_each_turn _ _ _ _ _ _ _ Hpre), body_unfold. cbv zeta.
  fold email phone.
  split; [intros ->; reflexivity|].
  split; [intros -> ->; reflexivity|].
  intros -> -> ->; reflexivity.
Qed.

(** C7 -- records are taken in input order and a rejected record
    leaves no trace but its error entry: a turn that returns has
    either appended one customer (and stored it as the last row of
    the customer table) or appended one error (and stored nothing),
    and the loop goes on with the next record; the results of a list
    are the results of its front part followed by those of the rest.
    For three records of which the second alone has a malformed email,
    records 1 and 3 are created in that order, the customer table ends
    as the one the call found followed by these two rows, the other
    tables are as they were, and the errors are exactly
    "Row 2: Invalid email <email>". *)
Theorem bulk_rejection_is_local :
  (forall pre data rest st c1 e1 st1 acc st2,
     for_each 0 pre [] [] st = (Returns (c1, e1), st1) ->
     body (List.length pre) data c1 e1 st1 = (Returns acc, st2) ->
     ((exists c, acc = (c1 ++ [c], e1) /\ st2 = insert_customer c st1 /\
                 c_id c = next_customer st1 /\
                 customer_table st2 = customer_table st1 ++ [c]) \/
      (exists msg, acc = (c1, e1 ++ [msg]) /\ st2 = st1)) /\
     for_each 0 (pre ++ data :: rest) [] [] st =
     for_each (S (List.length pre)) rest (fst acc) (snd acc) st2) /\
  (forall xs ys st c1 e1 st1 c2 e2 st2,
     for_each 0 xs [] [] st = (Returns (c1, e1), st1) ->
     for_each (List.length xs) ys [] [] st1 = (Returns (c2, e2), st2) ->
     mutate (xs ++ ys) st = (Returns (mkPayload (c1 ++ c2) (e1 ++ e2)), st2)) /\
  (forall d1 d2 d3 st,
     let c1 := mkCustomer (next_customer st) (lookup "name" d1)
                 (lookup "email" d1) (lookup "phone" d1) in
     let c3 := mkCustomer (next_customer st + 1) (lookup "name" d3)
                 (lookup "email" d3) (lookup "phone" d3) in
     validate_email (lookup "email" d1) = Returns tt ->
     exists_ (Customers.filter_email (lookup "email" d1) st) = false ->
     phone_rejected (lookup "phone" d1) = Returns false ->
     db_fault st (InsertCustomer (lookup "name" d1) (lookup "email" d1)
                                 (lookup "phone" d1)) = false ->
     validate_email (lookup "email" d2) = Raises ValidationError ->
     validate_email (lookup "email" d3) = Returns tt ->
     exists_ (Customers.filter_email (lookup "email" d3) st) = false ->
     pyval_eqb (lookup "email" d1) (lookup "email" d3) = false ->
     phone_rejected (lookup "phone" d3) = Returns false ->
     db_fault (insert_customer c1 st)
              (InsertCustomer (lookup "name" d3) (lookup "email" d3)
                              (lookup "phone" d3)) = false ->
     exists p st',
       mutate [PDict d1; PDict d2; PDict d3] st = (Returns p, st') /\
       st' = insert_customer c3 (insert_customer c1 st) /\
       customer_table st' = customer_table st ++ [c1; c3] /\
       product_table st' = product_table st /\
       order_table st' = order_table st /\
       order_products st' = order_products st /\
       customers p = [c1; c3] /\
       List.length (customers p) = 2%nat /\
       errors p = [("Row 2: Invalid email " ++ format (lookup "email" d2))%string]).
Proof.
  split; [|split].
  - intros pre data rest st c1 e1 st1 acc st2 Hpre Hbody. split.
    + apply body_created_key in Hbody.
      destruct Hbody as [(c & -> & -> & Hkey)|(msg & -> & ->)]; [left|eauto].
      exists c. repeat split; [exact Hkey].
    + rewrite (for_each_turn _ _ _ _ _ _ _ Hpre), Hbody. reflexivity.
  - intros xs ys st c1 e1 st1 c2 e2 st2 Hxs Hys.
    rewrite bulk_mutate_unfold, for_each_app, Hxs. simpl.
    rewrite for_each_accumulates, Hys. reflexivity.
  - intros d1 d2 d3 st c1 c3 Hv1 Hu1 Hp1 Hdb1 Hv2 Hv3 Hu3 Hne Hp3 Hdb3.
    do 2 eexists. rewrite bulk_mutate_unfold. simpl for_each. unfold bind.
    rewrite body_unfold. cbv zeta. rewrite Hv1, Hu1, Hp1, Hdb1.
    simpl fst. simpl snd.
    rewrite body_unfold. cbv zeta. rewrite Hv2.
    simpl fst. simpl snd.
    rewrite body_unfold. cbv zeta. rewrite Hv3.
    rewrite filter_email_insert, Hu3. simpl c_email. rewrite Hne.
    simpl orb. cbv iota. rewrite Hp3.
    fold c1. rewrite Hdb3.
    split; [reflexivity|]. split; [reflexivity|].
    simpl. rewrite <- app_assoc. repeat split.
Qed.

End BulkTheorems.

Section OrderTotals.
Context `{Django}.

Import CreateOrder.

Lemma linked_app (xs ys : list (Z * Z)) (order product : Z) :
  Orders.linked (xs ++ ys) order product =
  Orders.linked xs order product || Orders.linked ys order product.
Proof. unfold Orders.linked. apply existsb_app. Qed.

Lemma linked_In (rows : list (Z * Z)) (order product : Z) :
  Orders.linked rows order product = true <-> In (order, product) rows.
Proof.
  unfold Orders.linked. rewrite existsb_exists. split.
  - intros [[o p] [Hin Heq]]. simpl in Heq.
    apply andb_true_iff in Heq. destruct Heq as [Ho Hp].
    apply Z.eqb_eq in Ho, Hp. now subst.
  - intros Hin. exists (order, product). split; [assumption|].
    simpl. now rewrite !Z.eqb_refl.
Qed.

Lemma linked_none (rows : list (Z * Z)) (order product : Z) :
  (forall r, In r rows -> fst r <> order) ->
  Orders.linked rows order product = false.
Proof.
  intros Hno. destruct (Orders.linked rows order product) eqn:E; [|reflexivity].
  apply linked_In in E. now apply Hno in E.
Qed.

(** Attaching products to an order that has no row yet adds one row
    per product and drops none. *)
Lemma set_products_fresh (o : Order) (objs : list Product) (st st' : Store) :
  (forall r, In r (order_products st) -> fst r <> o_id o) ->
  Orders.set_products o objs st = (Returns tt, st') ->
  st' =
  with_order_products
    (order_products st ++ map (fun p => (o_id o, p)) (map p_id objs)) st.
Proof.
  intros Hfresh. unfold Orders.set_products.
  destruct (db_fault _ _); [discriminate|].
  intros E. injection E as <-.
  f_equal. f_equal.
  - apply forallb_filter_id. apply forallb_forall. intros r Hr.
    apply Hfresh in Hr. apply Z.eqb_neq in Hr. now rewrite Hr.
  - f_equal. apply forallb_filter_id. apply forallb_forall. intros p _.
    now rewrite linked_none.
Qed.

(** Reading the products of an order back through the link table. *)
Lemma products_of_new_order (st : Store) (o : Order) (ids : list Z) :
  (forall r, In r (order_products st) -> fst r <> o_id o) ->
  Orders.products_of
    (with_order_products
       (order_products st ++ map (fun p => (o_id o, p))
                                 (map p_id (Products.with_keys ids st)))
       (insert_order o st))
    (o_id o) =
  Products.with_keys ids st.
Proof.
  intros Hfresh. unfold Orders.products_of, Products.with_keys at 2. simpl.
  apply filter_ext_in. intros p Hp.
  rewrite linked_app, (linked_none _ _ _ Hfresh). simpl.
  apply eq_true_iff_eq. rewrite linked_In, existsb_exists, in_map_iff. split.
  - intros [id [Hpair Hid]]. injection Hpair as <-.
    apply in_map_iff in Hid. destruct Hid as [q [Hq Hqm]].
    apply filter_pk_in_In in Hqm. exists (p_id q).
    split; [tauto|]. rewrite Hq. apply Z.eqb_refl.
  - intros [id [Hid Heq]]. apply Z.eqb_eq in Heq. subst id.
    exists (p_id p). split; [reflexivity|].
    apply in_map. apply filter_pk_in_In. tauto.
Qed.

Lemma products_of_old_order (st : Store) (o : Order) (ids : list Z)
    (order : Z) :
  order <> o_id o ->
  Orders.products_of
    (with_order_products
       (order_products st ++ map (fun p => (o_id o, p)) ids)
       (insert_order o st))
    order =
  Orders.products_of st order.
Proof.
  intros Hne. unfold Orders.products_of. simpl.
  apply filter_ext. intros p. rewrite linked_app.
  rewrite (linked_none (map _ ids)); [apply orb_false_r|].
  intros r Hr. apply in_map_iff in Hr. destruct Hr as [x [<- _]].
  simpl. congruence.
Qed.

(** A product added under a key the link table has never seen
    belongs to no order. *)
Lemma products_of_new_product (st : Store) (p : Product) (order : Z) :
  (forall r, In r (order_products st) -> snd r <> p_id p) ->
  Orders.products_of (insert_product p st) order =
  Orders.products_of st order.
Proof.
  intros Hfresh. unfold Orders.products_of. simpl.
  rewrite filter_app. simpl.
  destruct (Orders.linked (order_products st) order (p_id p)) eqn:E.
  - apply linked_In in E. apply Hfresh in E. now simpl in E.
  - apply app_nil_r.
Qed.

(** What a createOrder call that returns an order has done. *)
Lemma create_order_success (customer_id : string)
    (product_ids : list (option string))
    (order_date : option Z) (st st' : Store) (p : Payload) (o : Order) :
  mutate customer_id product_ids order_date st = (Returns p, st') ->
  order p = Some o ->
  exists c keys,
    Customers.get customer_id st = (Returns c, st) /\
    Products.pk_in product_ids = Returns keys /\
    let matched := Products.with_keys keys st in
    exists_ matched = true /\
    List.length matched = List.length product_ids /\
    o = mkOrder (next_order st) (c_id c) (sum (map p_price matched)) order_date /\
    Orders.set_products o matched (insert_order o st) = (Returns tt, st') /\
    message p = "Order created successfully".
Proof.
  intros Hm Ho.
  destruct (Customers.get customer_id st) as [[c|e] st1] eqn:Hget.
  - destruct (get_customer_returns _ _ _ _ Hget) as (-> & _).
    rewrite (create_order_unfold _ _ _ _ _ Hget) in Hm.
    destruct (Products.pk_in product_ids) as [keys|e] eqn:Hkeys;
      [|discriminate].
    cbv zeta in Hm. exists c, keys.
    split; [reflexivity|]. split; [reflexivity|].
    intros matched. fold matched in Hm.
    destruct (exists_ matched) eqn:Hex; simpl in Hm;
      [|injection Hm as <- <-; discriminate].
    destruct (List.length matched =? List.length product_ids)%nat eqn:Hlen;
      simpl in Hm; [|injection Hm as <- <-; discriminate].
    unfold Orders.create in Hm.
    destruct (db_fault st _); [discriminate|].
    destruct (Orders.set_products _ matched _) as [[[]|e] st2] eqn:Hset;
      [|discriminate].
    injection Hm as <- <-. simpl in Ho. injection Ho as <-.
    repeat split; try assumption.
    now apply Nat.eqb_eq.
  - unfold mutate in Hm. run_monad. rewrite Hget in Hm.
    destruct (is_DoesNotExist e); [|discriminate].
    injection Hm as <- <-. discriminate.
Qed.

Lemma NoDup_snoc {A} (l : list A) (x : A) :
  NoDup l -> ~ In x l -> NoDup (l ++ [x]).
Proof.
  induction l as [|a l IH]; simpl; intros Hnd Hx.
  - constructor; [tauto|constructor].
  - inversion Hnd as [|? ? Ha Hl]; subst. constructor.
    + rewrite in_app_iff. simpl. intros [Hin|[->|[]]]; tauto.
    + apply IH; tauto.
Qed.

Lemma consistent_empty : consistent empty_store.
Proof.
  split; simpl; try (intros ? []). constructor.
Qed.

(** Writes to the customer table alone keep the invariants. *)
Lemma consistent_customers_only (st st' : Store) :
  product_table st' = product_table st ->
  order_table st' = order_table st ->
  order_products st' = order_products st ->
  next_product st' = next_product st ->
  next_order st' = next_order st ->
  consistent st -> consistent st'.
Proof.
  intros Hp Ho Hl Hnp Hno [K1 K2 K3 K4 K5].
  split; unfold Orders.products_of; rewrite ?Hp, ?Ho, ?Hl, ?Hnp, ?Hno;
    assumption.
Qed.

Lemma consistent_insert_product (st : Store) (name : string)
    (price stock : Z) :
  consistent st ->
  consistent (insert_product (mkProduct (next_product st) name price stock) st).
Proof.
  intros [K1 K2 K3 K4 K5]. split; simpl.
  - rewrite map_app. simpl. apply NoDup_snoc; [assumption|].
    intros Hin. apply in_map_iff in Hin. destruct Hin as [q [Hq Hin]].
    apply K2 in Hin. lia.
  - intros p Hp. apply in_app_or in Hp. destruct Hp as [Hp|[<-|[]]].
    + apply K2 in Hp. lia.
    + simpl. lia.
  - assumption.
  - intros r Hr. apply K4 in Hr. lia.
  - intros o Ho. rewrite products_of_new_product; [now apply K5|].
    intros r Hr. apply K4 in Hr. simpl. lia.
Qed.

Lemma consistent_new_order (st : Store) (customer total : Z)
    (order_date : option Z) (ids : list Z) :
  consistent st ->
  let matched := Products.with_keys ids st in
  let o := mkOrder (next_order st) customer (sum (map p_price matched))
                   order_date in
  consistent
    (with_order_products
       (order_products st ++ map (fun p => (o_id o, p)) (map p_id matched))
       (insert_order o st)).
Proof.
  intros [K1 K2 K3 K4 K5] matched o.
  assert (Hfresh : forall r, In r (order_products st) -> fst r <> o_id o).
  { intros r Hr. apply K4 in Hr. simpl. lia. }
  split.
  - exact K1.
  - exact K2.
  - simpl. intros o' Ho'. apply in_app_or in Ho'.
    destruct Ho' as [Ho'|[<-|[]]]; [apply K3 in Ho'|simpl]; lia.
  - simpl. intros r Hr. apply in_app_or in Hr. destruct Hr as [Hr|Hr].
    + apply K4 in Hr. lia.
    + apply in_map_iff in Hr. destruct Hr as [id [<- Hid]].
      apply in_map_iff in Hid. destruct Hid as [q [<- Hq]].
      apply filter_pk_in_In in Hq. destruct Hq as [Hq _].
      apply K2 in Hq. simpl. lia.
  - intros o' Ho'. simpl order_table in Ho'. apply in_app_or in Ho'.
    destruct Ho' as [Ho'|[<-|[]]].
    + rewrite products_of_old_order; [now apply K5|].
      apply K3 in Ho'. simpl. lia.
    + unfold matched. rewrite (products_of_new_order st o ids Hfresh).
      reflexivity.
Qed.

(** A createOrder answer without an order has written nothing. *)
Lemma create_order_refusal (customer_id : string)
    (product_ids : list (option string)) (order_date : option Z)
    (st st' : Store) (p : Payload) :
  mutate customer_id product_ids order_date st = (Returns p, st') ->
  order p = None ->
  st' = st.
Proof.
  unfold mutate, Customers.get, Products.filter_pk_in, Products.pk_in,
    Orders.create, Orders.set_products. run_monad.
  repeat split_test; intros E Ho; try discriminate;
    repeat match goal with
           | E : (_, _) = (_, _) |- _ => injection E as ? ?; subst
           end; try reflexivity; discriminate.
Qed.

(** Every answered mutation call keeps the invariants. *)
Lemma resolve_consistent (f : Mutation.field) (st st' : Store)
    (p : Mutation.payload) :
  consistent st ->
  Mutation.resolve f st = (Returns p, st') ->
  consistent st'.
Proof.
  intros Hc. destruct f as [name email phone|input|name price stock|cid ids date];
    unfold Mutation.resolve; unfold bind at 1; unfold ret.
  - rewrite create_customer_unfold. unfold Customers.create.
    repeat split_test; intros E; try discriminate; injection E as _ <-;
      repeat match goal with
             | E : (_, _) = (_, _) |- _ => injection E as ? ?; subst
             end; try assumption; try discriminate.
    all: eapply consistent_customers_only; [..|exact Hc]; reflexivity.
  - rewrite bulk_mutate_unfold.
    destruct (BulkCreateCustomers.for_each 0 input [] [] st)
      as [[acc|e] st1] eqn:Hrun; [|discriminate].
    intros E. injection E as _ <-.
    apply for_each_returns in Hrun.
    destruct Hrun as (new & errs & _ & _ & _ & _ & Hp & Ho & Hl & Hnp & Hno).
    now apply (consistent_customers_only st st1).
  - unfold CreateProduct.mutate, Products.create. run_monad.
    repeat split_test; intros E; try discriminate; injection E as _ <-;
      repeat match goal with
             | E : (_, _) = (_, _) |- _ => injection E as ? ?; subst
             end; try assumption; try discriminate.
    now apply consistent_insert_product.
  - destruct (mutate cid ids date st) as [[q|e] st1] eqn:Hm; [|discriminate].
    intros E. injection E as _ <-.
    destruct (order q) as [o|] eqn:Hq.
    + destruct (create_order_success _ _ _ _ _ _ _ Hm Hq)
        as (c & keys & _ & _ & _ & _ & -> & Hset & _).
      apply set_products_fresh in Hset.
      * rewrite Hset. simpl order_products.
        now apply (consistent_new_order st (c_id c) 0 date keys).
      * simpl. intros r Hr. apply (link_keys_fresh st Hc) in Hr. lia.
    + now rewrite (create_order_refusal _ _ _ _ _ _ Hm Hq).
Qed.

Lemma reachable_consistent (st0 st : Store) :
  consistent st0 -> Mutation.reachable st0 st -> consistent st.
Proof.
  intros H0 Hr. induction Hr as [|st st' f p _ IH Hcall]; [assumption|].
  exact (resolve_consistent f st st' p IH Hcall).
Qed.

(** Whatever way a createOrder call ends, an order row it has added
    carries the sum of the prices of the products its ids resolved
    to. *)
Lemma create_order_new_rows (customer_id : string)
    (product_ids : list (option string))
    (order_date : option Z) (st st' : Store) (r : outcome Payload) (o : Order) :
  mutate customer_id product_ids order_date st = (r, st') ->
  In o (order_table st') ->
  ~ In o (order_table st) ->
  exists keys,
    Products.pk_in product_ids = Returns keys /\
    o_total_amount o = sum (map p_price (Products.with_keys keys st)).
Proof.
  unfold mutate, Customers.get, Products.filter_pk_in, Orders.create,
    Orders.set_products. run_monad.
  destruct (Products.pk_in product_ids) as [keys|e];
    repeat split_test; intros E Hin Hnew;
    repeat match goal with
           | E : (_, _) = (_, _) |- _ => injection E as ? ?; subst
           end;
    try contradiction; try discriminate;
    simpl in Hin; apply in_app_or in Hin;
    destruct Hin as [Hin|[<-|[]]]; try contradiction;
    exists keys; split; reflexivity.
Qed.

(** C3 -- a createOrder call that returns an order has stored it with
    a [total_amount] equal to the sum of the prices of the products
    its ids resolved to; those products are the ones attached to the
    order, one per requested id; no call adds an order row with any
    other total; and in every store reached through answered
    mutation calls each order's total is the sum of the prices of its
    products. *)
Theorem create_order_total_is_sum :
  (forall customer_id product_ids order_date st p st' o,
     mutate customer_id product_ids order_date st = (Returns p, st') ->
     order p = Some o ->
     exists keys,
       Products.pk_in product_ids = Returns keys /\
       let resolved := Products.with_keys keys st in
       o_total_amount o = sum (map p_price resolved) /\
       In o (order_table st') /\
       (consistent st ->
        Orders.products_of st' (o_id o) = resolved /\
        Permutation (map p_id resolved) keys /\
        Forall2 (fun id key =>
                   exists text, id = Some text /\ to_int text = Some key)
                product_ids keys)) /\
  (forall customer_id product_ids order_date st r st' o,
     mutate customer_id product_ids order_date st = (r, st') ->
     In o (order_table st') ->
     ~ In o (order_table st) ->
     exists keys,
       Products.pk_in product_ids = Returns keys /\
       o_total_amount o =
       sum (map p_price (Products.with_keys keys st))) /\
  (forall st0 st,
     consistent st0 ->
     Mutation.reachable st0 st ->
     forall o, In o (order_table st) ->
       o_total_amount o =
       sum (map p_price (Orders.products_of st (o_id o)))).
Proof.
  split; [|split].
  - intros cid ids date st p st' o Hm Ho.
    destruct (create_order_success _ _ _ _ _ _ _ Hm Ho)
      as (c & keys & _ & Hkeys & _ & Hlen & Heq & Hset & _).
    exists keys. split; [exact Hkeys|]. intros resolved.
    fold resolved in Hlen, Heq, Hset.
    split; [rewrite Heq; reflexivity|].
    split.
    + revert Hset. unfold Orders.set_products.
      destruct (db_fault _ _); [discriminate|].
      intros E. injection E as <-. simpl.
      apply in_or_app. right. now left.
    + intros Hc.
      assert (Hfresh : forall r, In r (order_products (insert_order o st)) ->
                                 fst r <> o_id o).
      { simpl. intros r Hr. apply (link_keys_fresh st Hc) in Hr.
        rewrite Heq. simpl. lia. }
      apply set_products_fresh in Hset; [|exact Hfresh].
      destruct (pk_in_returns _ _ Hkeys) as (Hprep & Hle & _).
      destruct (matched_length keys st (product_keys_unique st Hc))
        as [Hle' _].
      fold resolved in Hle'.
      split; [|split].
      * rewrite Hset. simpl order_products.
        apply products_of_new_order. exact Hfresh.
      * apply NoDup_Permutation_bis.
        -- apply NoDup_map_filter. apply (product_keys_unique st Hc).
        -- rewrite length_map. fold resolved. lia.
        -- apply matched_ids_incl.
      * apply prepare_full; [exact Hprep|lia].
  - intros cid ids date st r st' o. apply create_order_new_rows.
  - intros st0 st H0 Hr.
    apply (totals_derived st (reachable_consistent st0 st H0 Hr)).
Qed.

End OrderTotals.

(** * The theorems at work on the sample data *)

Example phone_with_plus :
  @phone_rejected lenient (PStr "+1234567890") = Returns false.
Proof. reflexivity. Qed.

Example phone_digits_and_hyphens :
  @phone_rejected lenient (PStr "555-01-00") = Returns false.
Proof. reflexivity. Qed.

Example phone_full_width_digits :
  @phone_rejected lenient (PStr "１２３") = Returns false.
Proof. reflexivity. Qed.

Example phone_only_hyphens : @phone_rejected lenient (PStr "--") = Returns true.
Proof. reflexivity. Qed.

Example phone_empty : @phone_rejected lenient (PStr "") = Returns false.
Proof. reflexivity. Qed.

Example phone_not_a_str :
  @phone_rejected lenient (PInt 5550100) = Raises AttributeError.
Proof. reflexivity. Qed.

Example int_of_padded_text : ascii_int " 007 " = Some 7.
Proof. reflexivity. Qed.

Example int_of_signed_text : ascii_int "-1_000" = Some (-1000).
Proof. reflexivity. Qed.

Example int_of_a_word : ascii_int "abc" = None.
Proof. reflexivity. Qed.

Example price_below_a_cent : cents 0.004 = 0.
Proof. reflexivity. Qed.

Example price_of_the_laptop : cents 999.99 = 99999.
Proof. reflexivity. Qed.

Example email_without_at_sign :
  @validate_email lenient (PStr "carol.example.com") = Raises ValidationError.
Proof. reflexivity. Qed.

(** Inside the block the first record has been written when the
    second one raises; the call then hands back the store it found. *)
Example fault_after_a_write :
  customer_table
    (snd (@BulkCreateCustomers.for_each lenient 0
            [record "Carol" "carol@example.com" PNone; PInt 5] [] [] seeded)) =
  [alice; bob; mkCustomer 3 (PStr "Carol") (PStr "carol@example.com") PNone] /\
  @BulkCreateCustomers.mutate lenient
     [record "Carol" "carol@example.com" PNone; PInt 5] seeded =
  (Raises AttributeError, seeded).
Proof. split; reflexivity. Qed.

(** Without a transaction around it, createOrder keeps the order row
    when the database refuses the product links. *)
Example create_order_interrupted :
  @CreateOrder.mutate refusing "2" [Some "1"] None seeded =
  (Raises DatabaseError,
   insert_order (mkOrder 2 2 (p_price laptop) None) seeded).
Proof. reflexivity. Qed.

Lemma seeded_consistent : consistent seeded.
Proof.
  split; simpl.
  - repeat constructor; simpl; intuition discriminate.
  - intros p [<-|[<-|[]]]; simpl; lia.
  - intros o [<-|[]]; simpl; lia.
  - intros r [<-|[<-|[]]]; simpl; lia.
  - intros o [<-|[]]. reflexivity.
Qed.

Lemma create_customer_first_failure_wins_witness :
  @CreateCustomer.mutate lenient "Carol" "carol.example.com" None seeded =
  (Returns (CreateCustomer.mkPayload None "Invalid email format"), seeded) /\
  @CreateCustomer.mutate lenient "Carol" "alice@example.com" None seeded =
  (Returns (CreateCustomer.mkPayload None "Email already exists"), seeded) /\
  @CreateCustomer.mutate lenient "Carol" "carol@example.com" (Some "call me")
     seeded =
  (Returns (CreateCustomer.mkPayload None "Invalid phone format"), seeded) /\
  snd (@CreateCustomer.mutate lenient "Carol" "alice@example.com"
         (Some "call me") seeded) = seeded.
Proof.
  split; [|split; [|split]].
  - apply (@create_customer_first_failure_wins lenient
             "Carol" "carol.example.com" None seeded).
    reflexivity.
  - apply (@create_customer_first_failure_wins lenient
             "Carol" "alice@example.com" None seeded); reflexivity.
  - apply (@create_customer_first_failure_wins lenient
             "Carol" "carol@example.com" (Some "call me") seeded); reflexivity.
  - apply (proj2 (proj2 (proj2 (@create_customer_first_failure_wins lenient
             "Carol" "alice@example.com" (Some "call me") seeded)))
             (CreateCustomer.mkPayload None "Email already exists"));
      reflexivity.
Defined.

Lemma create_customer_any_name_witness :
  @CreateCustomer.mutate lenient "" "carol@example.com" (Some "555-0100") seeded =
  (Returns
     (CreateCustomer.mkPayload
        (Some (mkCustomer 3 (PStr "") (PStr "carol@example.com")
                          (PStr "555-0100")))
        "Customer created successfully"),
   insert_customer
     (mkCustomer 3 (PStr "") (PStr "carol@example.com") (PStr "555-0100"))
     seeded).
Proof.
  apply (@create_customer_any_name lenient
           "" "carol@example.com" (Some "555-0100") seeded); reflexivity.
Defined.



Lemma create_order_repeated_product_witness :
  (List.length (Products.with_keys [1; 2; 1]%Z seeded) < 3)%nat /\
  @CreateOrder.mutate lenient "1" [Some "1"; Some "2"; Some "01"] None seeded =
  (Returns (CreateOrder.mkPayload None "Some product IDs are invalid"), seeded).
Proof.
  apply (@create_order_repeated_product lenient
           "1" [Some "1"; Some "2"; Some "01"] None seeded [1; 2; 1]).
  - apply (product_keys_unique seeded seeded_consistent).
  - exists 1, alice. repeat split. now left.
  - reflexivity.
  - intros id [<-|[<-|[<-|[]]]].
    + exists laptop. split; [now left|reflexivity].
    + exists phone. split; [right; now left|reflexivity].
    + exists laptop. split; [now left|reflexivity].
  - exists 1. simpl. lia.
Defined.

Lemma create_order_total_is_sum_witness :
  let o := mkOrder 2 2 (99999 + 49999) None in
  let st' := snd (@CreateOrder.mutate lenient "2" [Some "2"; Some "1"] None
                    seeded) in
  o_total_amount o = sum (map p_price (Products.with_keys [2; 1] seeded)) /\
  In o (order_table st') /\
  Orders.products_of st' (o_id o) = [laptop; phone] /\
  o_total_amount o = sum (map p_price (Orders.products_of st' (o_id o))).
Proof.
  intros o st'.
  destruct (proj1 (@create_order_total_is_sum lenient)
              "2" [Some "2"; Some "1"] None seeded
              (CreateOrder.mkPayload (Some o) "Order created successfully")
              st' o eq_refl eq_refl) as (keys & Hkeys & Ht & Hin & Hattached).
  assert (keys = [2; 1]) as -> by (now injection Hkeys).
  destruct (Hattached seeded_consistent) as [Hof _].
  split; [exact Ht|]. split; [exact Hin|]. split; [exact Hof|].
  apply (proj2 (proj2 (@create_order_total_is_sum lenient)) seeded st'
           seeded_consistent).
  - apply (@Mutation.reach_call lenient seeded seeded st'
             (Mutation.create_order "2" [Some "2"; Some "1"] None)
             (Mutation.OrderPayload
                (CreateOrder.mkPayload (Some o) "Order created successfully"))).
    + apply Mutation.reach_start.
    + reflexivity.
  - exact Hin.
Defined.

Lemma bulk_create_rolls_back_witness :
  let input := [record "Carol" "carol@example.com" PNone; PInt 5;
                record "Dave" "dave@example.com" PNone] in
  @BulkCreateCustomers.mutate lenient input seeded =
  (Raises AttributeError, seeded) /\
  snd (@BulkCreateCustomers.mutate lenient input seeded) = seeded.
Proof.
  intros input. split.
  - refine (proj2 (proj2 (@bulk_create_rolls_back lenient input seeded)
                     [record "Carol" "carol@example.com" PNone] (PInt 5)
                     [record "Dave" "dave@example.com" PNone]
                     _ _ _ AttributeError _ eq_refl eq_refl eq_refl)).
  - apply (proj1 (@bulk_create_rolls_back lenient input seeded)
             AttributeError).
    reflexivity.
Defined.

Lemma bulk_sequential_visibility_witness :
  let carol := mkCustomer 3 (PStr "Carol") (PStr "carol@example.com") PNone in
  let first := record "Carol" "carol@example.com" PNone in
  let second := record "Caroline" "carol@example.com" (PStr "+44") in
  @BulkCreateCustomers.mutate lenient [first; second] seeded =
  (Returns
     (BulkCreateCustomers.mkPayload
        [carol] ["Row 2: Email already exists (carol@example.com)"]),
   insert_customer carol seeded) /\
  @BulkCreateCustomers.for_each lenient 0 ([first] ++ [second]) [] [] seeded =
  @BulkCreateCustomers.for_each lenient 2 [] [carol]
     ["Row 2: Email already exists (carol@example.com)"]
     (insert_customer carol seeded).
Proof.
  intros carol first second. split.
  - apply (proj2 (@bulk_sequential_visibility lenient)
             [("name", PStr "Carol"); ("email", PStr "carol@example.com");
              ("phone", PNone)]
             [("name", PStr "Caroline"); ("email", PStr "carol@example.com");
              ("phone", PStr "+44")]
             "carol@example.com" seeded); reflexivity.
  - refine (proj1 (@bulk_sequential_visibility lenient)
              [first]
              [("name", PStr "Caroline"); ("email", PStr "carol@example.com");
               ("phone", PStr "+44")]
              [] seeded [carol] [] (insert_customer carol seeded) carol
              "carol@example.com" eq_refl _ eq_refl eq_refl).
    now left.
Defined.

Lemma bulk_missing_email_is_rejected_witness :
  @BulkCreateCustomers.mutate lenient
     [record "Carol" "carol@example.com" PNone; PDict [("name", PStr "Dave")]]
     seeded =
  (Returns
     (BulkCreateCustomers.mkPayload
        [mkCustomer 3 (PStr "Carol") (PStr "carol@example.com") PNone]
        ["Row 2: Invalid email None"]),
   insert_customer
     (mkCustomer 3 (PStr "Carol") (PStr "carol@example.com") PNone) seeded).
Proof.
  refine (proj2 (@bulk_missing_email_is_rejected lenient
                   [record "Carol" "carol@example.com" PNone] []
                   [("name", PStr "Dave")] seeded _ _ _ eq_refl _)).
  simpl. intros [E|[]]. discriminate.
Defined.

Lemma bulk_error_entries_witness :
  let carol := mkCustomer 3 (PStr "Carol") (PStr "carol@example.com") PNone in
  let front := [record "Carol" "carol@example.com" PNone] in
  let after entry :=
    @BulkCreateCustomers.for_each lenient 2 [] [carol] [entry]
       (insert_customer carol seeded) in
  @BulkCreateCustomers.for_each lenient 0
     (front ++ [record "Dave" "dave.example.com" PNone]) [] [] seeded =
  after "Row 2: Invalid email dave.example.com" /\
  @BulkCreateCustomers.for_each lenient 0
     (front ++ [record "Dave" "bob@example.com" PNone]) [] [] seeded =
  after "Row 2: Email already exists (bob@example.com)" /\
  @BulkCreateCustomers.for_each lenient 0
     (front ++ [record "Dave" "dave@example.com" (PStr "call me")]) [] [] seeded =
  after "Row 2: Invalid phone format (call me)".
Proof.
  intros carol front after.
  split; [|split].
  - refine (proj1 (@bulk_error_entries lenient front []
                     [("name", PStr "Dave"); ("email", PStr "dave.example.com");
                      ("phone", PNone)]
                     seeded _ _ _ eq_refl) eq_refl).
  - refine (proj1 (proj2 (@bulk_error_entries lenient front []
                            [("name", PStr "Dave");
                             ("email", PStr "bob@example.com");
                             ("phone", PNone)]
                            seeded _ _ _ eq_refl)) eq_refl eq_refl).
  - refine (proj2 (proj2 (@bulk_error_entries lenient front []
                            [("name", PStr "Dave");
                             ("email", PStr "dave@example.com");
                             ("phone", PStr "call me")]
                            seeded _ _ _ eq_refl)) eq_refl eq_refl eq_refl).
Defined.

Lemma bulk_rejection_is_local_witness :
  let carol := mkCustomer 3 (PStr "Carol") (PStr "carol@example.com") PNone in
  let erin := mkCustomer 4 (PStr "Erin") (PStr "erin@example.com")
                         (PStr "555-0199") in
  exists p st',
    @BulkCreateCustomers.mutate lenient
       [record "Carol" "carol@example.com" PNone;
        record "Dave" "dave.example.com" PNone;
        record "Erin" "erin@example.com" (PStr "555-0199")] seeded =
    (Returns p, st') /\
    st' = insert_customer erin (insert_customer carol seeded) /\
    customer_table st' = [alice; bob] ++ [carol; erin] /\
    product_table st' = [laptop; phone] /\
    order_table st' = order_table seeded /\
    order_products st' = order_products seeded /\
    BulkCreateCustomers.customers p = [carol; erin] /\
    List.length (BulkCreateCustomers.customers p) = 2%nat /\
    BulkCreateCustomers.errors p = ["Row 2: Invalid email dave.example.com"].
Proof.
  intros carol erin.
  apply (proj2 (proj2 (@bulk_rejection_is_local lenient))
           [("name", PStr "Carol"); ("email", PStr "carol@example.com");
            ("phone", PNone)]
           [("name", PStr "Dave"); ("email", PStr "dave.example.com");
            ("phone", PNone)]
           [("name", PStr "Erin"); ("email", PStr "erin@example.com");
            ("phone", PStr "555-0199")]
           seeded); reflexivity.
Defined.

(** C6, as the claim words it, fails on a malformed email: the entry
    the call produces carries the value bare, so it is not
    "Row 1: <reason> (<value>)" for any reason. *)
Lemma bulk_invalid_email_entry_is_bare :
  @BulkCreateCustomers.mutate lenient
     [record "Dave" "dave.example.com" PNone] seeded =
  (Returns (BulkCreateCustomers.mkPayload
              [] ["Row 1: Invalid email dave.example.com"]),
   seeded) /\
  ~ (exists reason : string,
       "Row 1: Invalid email dave.example.com" =
       ("Row 1: " ++ reason ++ " (dave.example.com)")%string).
Proof.
  split; [reflexivity|].
  intros [reason E]. apply (f_equal last_char) in E.
  rewrite last_char_append in E by (destruct reason; discriminate).
  rewrite last_char_append in E by discriminate.
  discriminate.
Qed.

(** * Further properties of the handlers *)

Section CreateProductFacts.
Context `{Django}.

Import CreateProduct.

(** X1 -- createProduct checks the price before the stock: a price
    that is zero or negative is refused with "Price must be positive"
    whatever the stock, a negative stock with an acceptable price with
    "Stock cannot be negative"; both answers carry no product and
    leave the store as it was. *)
Theorem create_product_rejections
    (name : string) (price : float) (stock : option Z) (st : Store) :
  ((price <=? 0)%float = true ->
   mutate name price stock st =
   (Returns (mkPayload None "Price must be positive"), st)) /\
  (forall n,
     (price <=? 0)%float = false -> stock = Some n -> n < 0 ->
     mutate name price stock st =
     (Returns (mkPayload None "Stock cannot be negative"), st)).
Proof.
  unfold mutate. split.
  - intros Hp. now rewrite Hp.
  - intros n Hp -> Hs. apply Z.ltb_lt in Hs.
    now rewrite Hp, Hs.
Qed.

(** X2 -- whatever way a createProduct call ends, the store has moved
    only if the call returned a product: then the price passed the
    test [price <= 0], the stock is an integer that is not negative,
    and the one row added has the table's next key, the name, the
    stock, and the price as the price column keeps it (which can be
    0.00 for a small positive price).  The call raises TypeError on a
    null stock with a price that passed, and otherwise only when the
    database refuses the insert; it then leaves the store it found. *)
Theorem create_product_outcomes
    (name : string) (price : float) (stock : option Z) (st st' : Store)
    (r : outcome Payload) :
  mutate name price stock st = (r, st') ->
  match r with
  | Returns p =>
      match product p with
      | Some object =>
          exists n,
            (price <=? 0)%float = false /\ stock = Some n /\ 0 <= n /\
            object = Products.mkObject (next_product st) name price n /\
            st' = insert_product
                    (mkProduct (next_product st) name (price_column price) n)
                    st /\
            message p = "Product created successfully"
      | None =>
          st' = st /\
          ((price <=? 0)%float = true \/ exists n, stock = Some n /\ n < 0)
      end
  | Raises e =>
      st' = st /\ (price <=? 0)%float = false /\
      ((e = TypeError /\ stock = None) \/
       (e = DatabaseError /\
        exists n, stock = Some n /\ 0 <= n /\
                  db_fault st (InsertProduct name price n) = true))
  end.
Proof.
  unfold mutate, Products.create. run_monad.
  destruct (price <=? 0)%float eqn:Hp.
  - intros E. injection E as <- <-. simpl. auto.
  - destruct stock as [n|].
    + destruct (n <? 0) eqn:Hs.
      * apply Z.ltb_lt in Hs. intros E. injection E as <- <-. simpl. eauto.
      * apply Z.ltb_ge in Hs.
        destruct (db_fault st _) eqn:Hdb; intros E; injection E as <- <-;
          simpl.
        -- split; [reflexivity|]. split; [reflexivity|]. right. eauto.
        -- exists n. repeat split; auto.
    + intros E. injection E as <- <-. auto.
Qed.

End CreateProductFacts.

Section CreateOrderOutcomes.
Context `{Django}.

Import CreateOrder.

Lemma matched_permutation (ids : list Z) (st : Store) :
  NoDup (map p_id (product_table st)) ->
  List.length (Products.with_keys ids st) = List.length ids ->
  Permutation (map p_id (Products.with_keys ids st)) ids.
Proof.
  intros Hpk Hlen. apply NoDup_Permutation_bis.
  - now apply NoDup_map_filter.
  - rewrite length_map. lia.
  - apply matched_ids_incl.
Qed.

Lemma matched_full_length (ids : list Z) (st : Store) :
  NoDup (map p_id (product_table st)) ->
  NoDup ids ->
  (forall id, In id ids -> exists p, In p (product_table st) /\ p_id p = id) ->
  List.length (Products.with_keys ids st) = List.length ids.
Proof.
  intros Hpk Hnd Hall.
  destruct (matched_length ids st Hpk) as [Hle _].
  assert (Hge : (List.length ids
                 <= List.length (map p_id (Products.with_keys ids st)))%nat).
  { apply NoDup_incl_length; [assumption|].
    intros id Hid. destruct (Hall id Hid) as [p [Hp Hpid]].
    apply in_map_iff. exists p. split; [assumption|].
    apply filter_pk_in_In. split; [assumption|now rewrite Hpid]. }
  rewrite length_map in Hge. lia.
Qed.

Lemma set_products_run (o : Order) (objs : list Product) (st : Store) :
  (forall r, In r (order_products st) -> fst r <> o_id o) ->
  db_fault st (SetProducts (o_id o) (map p_id objs)) = false ->
  Orders.set_products o objs st =
  (Returns tt,
   with_order_products
     (order_products st ++ map (fun p => (o_id o, p)) (map p_id objs)) st).
Proof.
  intros Hfresh Hdb.
  destruct (Orders.set_products o objs st) as [[[]|e] st2] eqn:E.
  - now rewrite (set_products_fresh _ _ _ _ Hfresh E).
  - unfold Orders.set_products in E. rewrite Hdb in E. discriminate.
Qed.

(** X3 -- for an existing customer, a request whose ids are the texts
    of integers none of which is the key of a product (the empty
    request and a request of nulls among them) is answered "No valid
    products found", with no order and no write; a request with an id
    that is not the text of an integer, or of one the database cannot
    take, makes the call raise what the lookup raises, with no
    write. *)
Theorem create_order_no_products
    (customer_id : string) (product_ids : list (option string))
    (order_date : option Z) (st : Store) :
  names_customer customer_id st ->
  (forall keys,
     Products.pk_in product_ids = Returns keys ->
     (forall p, In p (product_table st) -> ~ In (p_id p) keys) ->
     mutate customer_id product_ids order_date st =
     (Returns (mkPayload None "No valid products found"), st)) /\
  (forall e,
     Products.pk_in product_ids = Raises e ->
     mutate customer_id product_ids order_date st = (Raises e, st)).
Proof.
  intros Hcust.
  destruct (get_customer_present _ _ Hcust) as [c [Hget _]].
  rewrite (create_order_unfold _ _ _ _ _ Hget). split.
  - intros keys -> Hnone. cbv zeta.
    destruct (Products.with_keys keys st) as [|q qs] eqn:E; [reflexivity|].
    assert (Hq : In q (Products.with_keys keys st))
      by (rewrite E; now left).
    apply filter_pk_in_In in Hq. destruct Hq as [Hq Hid].
    now apply Hnone in Hq.
  - intros e ->. reflexivity.
Qed.

(** X4 -- for an existing customer and unique product keys, a request
    in which some id is the key of a product while another is the key
    of none, or is null, is answered "Some product IDs are invalid",
    with no order and no write. *)
Theorem create_order_unknown_product
    (customer_id : string) (product_ids : list (option string))
    (order_date : option Z) (st : Store) (keys : list Z) :
  NoDup (map p_id (product_table st)) ->
  names_customer customer_id st ->
  Products.pk_in product_ids = Returns keys ->
  (exists p, In p (product_table st) /\ In (p_id p) keys) ->
  ((exists key, In key keys /\
                forall p, In p (product_table st) -> p_id p <> key) \/
   In None product_ids) ->
  mutate customer_id product_ids order_date st =
  (Returns (mkPayload None "Some product IDs are invalid"), st).
Proof.
  intros Hpk Hcust Hkeys [p [Hp Hpid]] Hbad.
  destruct (get_customer_present _ _ Hcust) as [c [Hget _]].
  rewrite (create_order_unfold _ _ _ _ _ Hget), Hkeys. cbv zeta.
  destruct (pk_in_returns _ _ Hkeys) as (Hprep & Hle & _).
  assert (Hm : In p (Products.with_keys keys st))
    by (apply filter_pk_in_In; tauto).
  assert (Hlt : (List.length (Products.with_keys keys st)
                 < List.length product_ids)%nat).
  { destruct Hbad as [[id [Hid Hmiss]]|Hnull].
    - assert (Hnd : NoDup (id :: map p_id (Products.with_keys keys st))).
      { constructor; [|now apply NoDup_map_filter].
        intros Hin. apply in_map_iff in Hin. destruct Hin as [q [Hq Hqm]].
        apply filter_pk_in_In in Hqm. destruct Hqm as [Hqt _].
        now apply (Hmiss q Hqt). }
      assert (Hincl : incl (id :: map p_id (Products.with_keys keys st)) keys).
      { intros x [<-|Hx]; [assumption|now apply matched_ids_incl in Hx]. }
      pose proof (NoDup_incl_length Hnd Hincl) as Hle'.
      simpl in Hle'. rewrite length_map in Hle'. lia.
    - destruct (matched_length keys st Hpk) as [Hle' _].
      assert (Hshort : (List.length keys < List.length product_ids)%nat).
      { clear -Hprep Hnull. revert keys Hprep.
        induction product_ids as [|[text|] rest IH]; simpl; intros keys E.
        - contradiction.
        - destruct (to_int text) as [key|]; [|discriminate].
          destruct (Products.prepare rest) as [keys'|] eqn:E';
            [|discriminate].
          injection E as <-. destruct Hnull as [Hn|Hn]; [discriminate|].
          specialize (IH Hn keys' eq_refl). simpl. lia.
        - apply prepare_length in E. lia. }
      lia. }
  destruct (Products.with_keys keys st) as [|q qs] eqn:E;
    [contradiction|].
  simpl exists_. simpl negb at 1. cbv iota.
  replace (List.length (q :: qs) =? List.length product_ids)%nat with false;
    [reflexivity|].
  symmetry. apply Nat.eqb_neq. lia.
Qed.

(** X5 -- in a consistent store createOrder returns an order exactly
    for an existing customer and a non-empty request without nulls and
    without repeats whose ids are all keys of products (the database
    taking both writes): the order gets the table's next key, the
    given customer and date, the sum of the prices, and one link row
    per product. *)
Theorem create_order_succeeds_iff
    (customer_id : string) (product_ids : list (option string))
    (order_date : option Z) (st : Store) :
  consistent st ->
  let acceptable keys :=
    names_customer customer_id st /\
    Products.pk_in product_ids = Returns keys /\
    List.length keys = List.length product_ids /\
    keys <> [] /\
    NoDup keys /\
    (forall key, In key keys ->
       exists p, In p (product_table st) /\ p_id p = key) in
  ((exists p st' o',
      mutate customer_id product_ids order_date st = (Returns p, st') /\
      order p = Some o') ->
   exists keys, acceptable keys) /\
  (forall keys customer,
     acceptable keys ->
     to_int customer_id = Some customer ->
     let matched := Products.with_keys keys st in
     let o := mkOrder (next_order st) customer (sum (map p_price matched))
                      order_date in
     db_fault st (InsertOrder customer (sum (map p_price matched))
                              order_date) = false ->
     db_fault (insert_order o st)
              (SetProducts (next_order st) (map p_id matched)) = false ->
     mutate customer_id product_ids order_date st =
     (Returns (mkPayload (Some o) "Order created successfully"),
      with_order_products
        (order_products st
           ++ map (fun p => (next_order st, p)) (map p_id matched))
        (insert_order o st))).
Proof.
  intros Hc acceptable. unfold acceptable.
  pose proof (product_keys_unique st Hc) as Hpk. split.
  - intros (p & st' & o' & Hm & Ho).
    destruct (create_order_success _ _ _ _ _ _ _ Hm Ho)
      as (c & keys & Hget & Hkeys & Hex & Hlen & _).
    apply get_customer_returns in Hget.
    destruct Hget as (_ & Hin & Hint & Hrange).
    destruct (pk_in_returns _ _ Hkeys) as (_ & Hle & _).
    destruct (matched_length keys st Hpk) as [Hle' Hnd].
    exists keys.
    split; [exists (c_id c), c; auto|].
    split; [assumption|]. split; [lia|]. split.
    + intros ->. unfold Products.with_keys in Hex.
      clear -Hex. induction (product_table st); simpl in Hex;
        [discriminate|auto].
    + split.
      * apply Hnd. lia.
      * intros id Hid'.
        assert (Hlen' : List.length (Products.with_keys keys st)
                        = List.length keys) by lia.
        pose proof (matched_permutation keys st Hpk Hlen') as Hperm.
        apply Permutation_sym in Hperm.
        apply (Permutation_in _ Hperm) in Hid'.
        apply in_map_iff in Hid'. destruct Hid' as [q [Hq Hqm]].
        apply filter_pk_in_In in Hqm. exists q. tauto.
  - cbv beta. intros keys customer (Hcust & Hkeys & Hlen & Hne & Hnd & Hall).
    intros Hint Hdb1 Hdb2.
    set (matched := Products.with_keys keys st) in *.
    set (o := mkOrder (next_order st) customer (sum (map p_price matched))
                      order_date) in *.
    destruct (get_customer_present _ _ Hcust) as [c [Hget [Hcid _]]].
    rewrite Hint in Hcid. injection Hcid as Hcid.
    rewrite (create_order_unfold _ _ _ _ _ Hget), Hkeys. cbv zeta.
    fold matched.
    pose proof (matched_full_length keys st Hpk Hnd Hall) as Hfull.
    fold matched in Hfull.
    assert (Hex : exists_ matched = true).
    { destruct matched; [|reflexivity].
      destruct keys; [contradiction|discriminate]. }
    rewrite Hex, Hfull, Hlen, Nat.eqb_refl. simpl negb. cbv iota.
    unfold Orders.create. rewrite <- Hcid, Hdb1. fold o.
    rewrite set_products_run.
    + reflexivity.
    + simpl. intros r Hr. apply (link_keys_fresh st Hc) in Hr. lia.
    + exact Hdb2.
Qed.

(** X6 -- a createOrder answer without an order has written nothing,
    and its message is one of "Invalid customer ID <id>", "No valid
    products found" and "Some product IDs are invalid". *)
Theorem create_order_failure_writes_nothing
    (customer_id : string) (product_ids : list (option string))
    (order_date : option Z) (st st' : Store) (p : Payload) :
  mutate customer_id product_ids order_date st = (Returns p, st') ->
  order p = None ->
  st' = st /\
  (message p = ("Invalid customer ID " ++ customer_id)%string \/
   message p = "No valid products found" \/
   message p = "Some product IDs are invalid").
Proof.
  unfold mutate, Customers.get, Products.filter_pk_in, Products.pk_in,
    Orders.create, Orders.set_products. run_monad.
  repeat split_test; intros E Ho; try discriminate;
    repeat match goal with
           | E : (_, _) = (_, _) |- _ => injection E as ? ?; subst
           end; try discriminate; simpl; auto.
Qed.

Lemma filter_pk_in_permutation (ids ids' : list Z) (st : Store) :
  Permutation ids ids' ->
  Products.with_keys ids st = Products.with_keys ids' st.
Proof.
  intros Hperm. unfold Products.with_keys. apply filter_ext. intros p.
  apply eq_true_iff_eq. rewrite !existsb_exists.
  split; intros [x [Hx Heq]]; exists x; split; try assumption.
  - now apply (Permutation_in _ Hperm).
  - now apply (Permutation_in _ (Permutation_sym Hperm)).
Qed.

Lemma prepare_permutation (ids ids' : list (option string)) :
  Permutation ids ids' ->
  match Products.prepare ids, Products.prepare ids' with
  | Some keys, Some keys' => Permutation keys keys'
  | None, None => True
  | _, _ => False
  end.
Proof.
  induction 1 as [|id l l' Hperm IH|x y l|l l' l'' _ IH1 _ IH2]; simpl.
  - constructor.
  - destruct id as [text|]; [|exact IH].
    destruct (to_int text) as [key|]; [|exact I].
    destruct (Products.prepare l), (Products.prepare l'); simpl;
      try contradiction; auto.
  - destruct x as [tx|], y as [ty|]; simpl;
      repeat match goal with
             | |- context [to_int ?t] => destruct (to_int t)
             end;
      destruct (Products.prepare l); simpl; auto using perm_swap.
  - destruct (Products.prepare l), (Products.prepare l'),
      (Products.prepare l''); try contradiction; auto.
    now transitivity l1.
Qed.

Lemma pk_in_permutation (ids ids' : list (option string)) :
  Permutation ids ids' ->
  match Products.pk_in ids, Products.pk_in ids' with
  | Returns keys, Returns keys' => Permutation keys keys'
  | Raises e, Raises e' => e = e'
  | _, _ => False
  end.
Proof.
  intros Hperm. apply prepare_permutation in Hperm. unfold Products.pk_in.
  destruct (Products.prepare ids) as [keys|],
    (Products.prepare ids') as [keys'|]; try contradiction; [|reflexivity].
  assert (Hsame : forallb key_in_range keys = forallb key_in_range keys').
  { apply eq_true_iff_eq. rewrite !forallb_forall. split; intros Hall x Hx.
    - apply Hall. now apply (Permutation_in _ (Permutation_sym Hperm)).
    - apply Hall. now apply (Permutation_in _ Hperm). }
  rewrite Hsame. now destruct (forallb key_in_range keys').
Qed.

(** X7 -- the order in which a request lists its ids does not matter:
    two requests that differ by a rearrangement of the ids get the
    same answer and leave the same store. *)
Theorem create_order_ids_rearranged
    (customer_id : string) (ids ids' : list (option string))
    (order_date : option Z) (st : Store) :
  Permutation ids ids' ->
  mutate customer_id ids order_date st = mutate customer_id ids' order_date st.
Proof.
  intros Hperm.
  destruct (Customers.get customer_id st) as [[c|e] st1] eqn:Hget.
  - destruct (get_customer_returns _ _ _ _ Hget) as (-> & _).
    rewrite !(create_order_unfold _ _ _ _ _ Hget).
    pose proof (pk_in_permutation _ _ Hperm) as Hkeys.
    destruct (Products.pk_in ids) as [keys|e],
      (Products.pk_in ids') as [keys'|e']; try contradiction.
    + cbv zeta. rewrite (filter_pk_in_permutation _ _ st Hkeys).
      now rewrite (Permutation_length Hperm).
    + now subst.
  - unfold mutate. run_monad. now rewrite Hget.
Qed.

(** X8 -- createOrder runs outside any transaction: when the database
    takes the order row and then refuses the product links, the call
    raises and the store keeps the order row, with its total and with
    no product attached. *)
Theorem create_order_keeps_row_without_links
    (customer_id : string) (product_ids : list (option string))
    (order_date : option Z) (st : Store) (keys : list Z) (customer : Z) :
  consistent st ->
  let matched := Products.with_keys keys st in
  let o := mkOrder (next_order st) customer (sum (map p_price matched))
                   order_date in
  names_customer customer_id st ->
  to_int customer_id = Some customer ->
  Products.pk_in product_ids = Returns keys ->
  exists_ matched = true ->
  List.length matched = List.length product_ids ->
  db_fault st (InsertOrder customer (sum (map p_price matched))
                           order_date) = false ->
  db_fault (insert_order o st)
           (SetProducts (next_order st) (map p_id matched)) = true ->
  mutate customer_id product_ids order_date st =
  (Raises DatabaseError, insert_order o st) /\
  In o (order_table (insert_order o st)) /\
  Orders.products_of (insert_order o st) (o_id o) = [].
Proof.
  intros Hc matched o Hcust Hint Hkeys Hex Hlen Hdb1 Hdb2.
  destruct (get_customer_present _ _ Hcust) as [c [Hget [Hcid _]]].
  rewrite Hint in Hcid. injection Hcid as Hcid.
  rewrite (create_order_unfold _ _ _ _ _ Hget), Hkeys. cbv zeta.
  fold matched.
  rewrite Hex, Hlen, Nat.eqb_refl. simpl negb. cbv iota.
  unfold Orders.create. rewrite <- Hcid, Hdb1. fold o.
  unfold Orders.set_products. simpl o_id. rewrite Hdb2.
  split; [reflexivity|]. split.
  - simpl. apply in_or_app. right. now left.
  - unfold Orders.products_of. simpl.
    rewrite (filter_ext _ (fun _ => false)).
    + clear. induction (product_table st); simpl; auto.
    + intros p. apply linked_none. intros r Hr.
      apply (link_keys_fresh st Hc) in Hr. lia.
Qed.

(** X9 -- however a createOrder call ends, it leaves the customers,
    the products and both their key counters alone, adds at most one
    order row (under the next key), and in a consistent store the
    products of every earlier order stay what they were. *)
Theorem create_order_frame
    (customer_id : string) (product_ids : list (option string))
    (order_date : option Z) (st st' : Store) (r : outcome Payload) :
  mutate customer_id product_ids order_date st = (r, st') ->
  customer_table st' = customer_table st /\
  product_table st' = product_table st /\
  next_customer st' = next_customer st /\
  next_product st' = next_product st /\
  (order_table st' = order_table st \/
   exists o, order_table st' = order_table st ++ [o] /\
             o_id o = next_order st) /\
  (consistent st ->
   forall o, In o (order_table st) ->
     Orders.products_of st' (o_id o) = Orders.products_of st (o_id o)).
Proof.
  intros Hm.
  assert (Hshape :
            st' = st \/
            exists o objs,
              o_id o = next_order st /\
              (st' = insert_order o st \/
               (Orders.set_products o objs (insert_order o st)
                = (Returns tt, st')))).
  { revert Hm. unfold mutate, Customers.get, Products.filter_pk_in,
      Orders.create. run_monad.
    destruct (to_int customer_id) as [key|];
      [|intros E; injection E as _ <-; auto].
    destruct (key_in_range key);
      [|destruct (is_DoesNotExist get_out_of_range);
        intros E; injection E as _ <-; auto].
    destruct (find _ _) as [c|]; [|intros E; injection E as _ <-; auto].
    destruct (Products.pk_in product_ids) as [keys|e];
      [|intros E; injection E as _ <-; auto].
    destruct (negb (exists_ _)); [intros E; injection E as _ <-; auto|].
    destruct (negb (_ =? _)%nat); [intros E; injection E as _ <-; auto|].
    destruct (db_fault st _); [intros E; injection E as _ <-; auto|].
    destruct (Orders.set_products _ _ _) as [[[]|e] st2] eqn:Hset;
      intros E; injection E as _ <-; right; eexists;
      exists (Products.with_keys keys st).
    - split; [|right; exact Hset]. reflexivity.
    - unfold Orders.set_products in Hset.
      destruct (db_fault _ _); [|discriminate].
      injection Hset as _ <-.
      split; [|left; reflexivity]. reflexivity. }
  destruct Hshape as [->|(o & objs & Hid & [->|Hset])].
  - repeat split; auto.
  - repeat split; simpl; eauto.
  - assert (Htables :
              customer_table st' = customer_table st /\
              product_table st' = product_table st /\
              next_customer st' = next_customer st /\
              next_product st' = next_product st /\
              order_table st' = order_table st ++ [o]).
    { revert Hset. unfold Orders.set_products.
      destruct (db_fault _ _); [discriminate|].
      intros E. injection E as <-. simpl. auto. }
    destruct Htables as (H1 & H2 & H3 & H4 & H5).
    repeat split; try assumption; [right; eauto|].
    intros Hc o' Ho'.
    apply set_products_fresh in Hset.
    + rewrite Hset. simpl order_products.
      apply products_of_old_order.
      apply (order_keys_fresh st Hc) in Ho'. lia.
    + simpl. intros r' Hr'. apply (link_keys_fresh st Hc) in Hr'. lia.
Qed.

End CreateOrderOutcomes.

Section PhoneFacts.
Context `{Django}.

Lemma hyphen_is_no_digit : is_digit "-" = false.
Proof. reflexivity. Qed.

Lemma continues_not_ascii (b : ascii) :
  continues b = true -> (nat_of_ascii b <? 128)%nat = false.
Proof.
  unfold continues. intros Hc. apply andb_true_iff in Hc.
  destruct Hc as [Hlo _]. apply Nat.leb_le in Hlo.
  apply Nat.ltb_ge. exact Hlo.
Qed.

Lemma chars_not_empty (s : string) :
  forall c, In c (chars s) -> c <> EmptyString.
Proof.
  induction s as [|b rest IH]; simpl; [intros c []|].
  destruct (chars rest) as [|next more].
  - intros c [<-|[]]. discriminate.
  - destruct (begins_inside next); intros c [<-|Hc]; try discriminate.
    + apply IH. now right.
    + apply IH. exact Hc.
Qed.

(** Every character after the first begins with a byte that begins
    a character. *)
Lemma chars_tail_lead (s : string) :
  forall c cs, chars s = c :: cs ->
  forall d, In d cs -> begins_inside d = false.
Proof.
  induction s as [|b rest IH]; simpl; [discriminate|].
  destruct (chars rest) as [|next more] eqn:E.
  - intros c cs R. injection R as <- <-. intros d [].
  - destruct (begins_inside next) eqn:Hn; intros c cs R;
      injection R as <- <-.
    + intros d Hd. now apply (IH next more eq_refl).
    + intros d [<-|Hd]; [exact Hn|].
      now apply (IH next more eq_refl).
Qed.

Lemma ascii_alone_tail (b : ascii) (rest : string) :
  ascii_alone (String b rest) -> ascii_alone rest.
Proof.
  unfold ascii_alone. simpl. intros Hs b' tail Hin Hascii.
  destruct (chars rest) as [|next more] eqn:E; [contradiction|].
  destruct (begins_inside next) eqn:Hn.
  - destruct Hin as [->|Hin].
    + simpl in Hn. apply continues_not_ascii in Hn. congruence.
    + apply (Hs b' tail); [now right|assumption].
  - apply (Hs b' tail); [now right|assumption].
Qed.

Lemma chars_after_ascii (b : ascii) (rest : string) :
  ascii_alone (String b rest) ->
  (nat_of_ascii b <? 128)%nat = true ->
  chars (String b rest) = String b EmptyString :: chars rest.
Proof.
  intros Hs Hascii. pose proof (chars_not_empty rest) as Hne.
  unfold ascii_alone in Hs. simpl in *.
  destruct (chars rest) as [|next more]; [reflexivity|].
  destruct (begins_inside next); [|reflexivity].
  exfalso. apply (Hne next); [now left|].
  apply (Hs b next); [now left|assumption].
Qed.

Definition not_hyphen (c : string) : bool := negb (c =? "-")%string.

(** Taking the hyphens out of a [str] takes out the characters that
    are hyphens and leaves the others as they are. *)
Lemma chars_without_hyphens (s : string) :
  ascii_alone s ->
  chars (replace "-" "" s) = filter not_hyphen (chars s).
Proof.
  induction s as [|b rest IH]; intros Hs; [reflexivity|].
  specialize (IH (ascii_alone_tail _ _ Hs)).
  simpl replace. destruct (Ascii.eqb_spec b "-") as [->|Hb].
  - rewrite (chars_after_ascii _ _ Hs eq_refl). simpl. exact IH.
  - simpl chars. rewrite IH.
    pose proof (chars_tail_lead rest) as Hlead.
    destruct (chars rest) as [|next more]; [simpl|].
    + unfold not_hyphen. simpl.
      destruct (Ascii.eqb_spec b "-"); [contradiction|reflexivity].
    + specialize (Hlead next more eq_refl).
      assert (Hkeep : forall tail, not_hyphen (String b tail) = true).
      { intros tail. unfold not_hyphen. simpl.
        destruct (Ascii.eqb_spec b "-"); [contradiction|reflexivity]. }
      destruct (begins_inside next) eqn:Hn.
      * assert (Hnext : not_hyphen next = true).
        { destruct next as [|b' t]; [discriminate|].
          unfold not_hyphen. simpl.
          destruct (Ascii.eqb_spec b' "-") as [->|]; [discriminate|reflexivity]. }
        simpl. rewrite Hnext, Hn, Hkeep. reflexivity.
      * change (filter not_hyphen (String b "" :: next :: more))
          with (if not_hyphen (String b "")
                then String b "" :: filter not_hyphen (next :: more)
                else filter not_hyphen (next :: more)).
        rewrite Hkeep.
        destruct (filter not_hyphen (next :: more)) as [|d ds] eqn:E;
          [reflexivity|].
        assert (Hd : In d (next :: more)).
        { assert (Hin : In d (filter not_hyphen (next :: more)))
            by (rewrite E; now left).
          now apply filter_In in Hin. }
        assert (Hdn : begins_inside d = false).
        { destruct Hd as [<-|Hd]; [exact Hn|now apply Hlead]. }
        now rewrite Hdn.
Qed.

Lemma not_hyphen_iff (c : string) : not_hyphen c = false <-> c = "-".
Proof.
  unfold not_hyphen. rewrite negb_false_iff. apply String.eqb_eq.
Qed.

Lemma startswith_plus (s : string) :
  startswith "+" s = true <-> exists rest, s = String "+" rest.
Proof.
  unfold startswith. destruct s as [|a s].
  - split; [discriminate|intros [rest E]; discriminate].
  - change (String.prefix "+" (String a s))
      with (if ascii_dec "+" a then String.prefix "" s else false).
    destruct (ascii_dec "+" a) as [E|Hne].
    + subst a. split; [eauto|intros _; now destruct s].
    + split; [discriminate|].
      intros [rest E]. injection E as E _. now subst a.
Qed.

Lemma isdigit_without_hyphens (s : string) :
  ascii_alone s ->
  isdigit (replace "-" "" s) = true <->
  (forall c, In c (chars s) -> is_digit c = true \/ c = "-") /\
  (exists c, In c (chars s) /\ is_digit c = true).
Proof.
  intros Hs. unfold isdigit. rewrite (chars_without_hyphens s Hs).
  split.
  - intros Hd.
    assert (Hall : forallb is_digit (filter not_hyphen (chars s)) = true).
    { destruct (filter not_hyphen (chars s)); [discriminate|exact Hd]. }
    rewrite forallb_forall in Hall. split.
    + intros c Hc. destruct (not_hyphen c) eqn:Hn.
      * left. apply Hall. apply filter_In. auto.
      * right. now apply not_hyphen_iff.
    + destruct (filter not_hyphen (chars s)) as [|c cs] eqn:E;
        [discriminate|].
      exists c. assert (Hin : In c (filter not_hyphen (chars s)))
        by (rewrite E; now left).
      split; [now apply filter_In in Hin|apply Hall; now left].
  - intros [Hall [c [Hc Hd]]].
    assert (Hin : In c (filter not_hyphen (chars s))).
    { apply filter_In. split; [exact Hc|].
      destruct (not_hyphen c) eqn:Hn; [reflexivity|].
      apply not_hyphen_iff in Hn. subst c.
      rewrite hyphen_is_no_digit in Hd. discriminate. }
    assert (Hd' : forallb is_digit (filter not_hyphen (chars s)) = true).
    { apply forallb_forall. intros d Hdin. apply filter_In in Hdin.
      destruct Hdin as [Hdin Hn]. destruct (Hall d Hdin) as [Hok| ->];
        [exact Hok|discriminate]. }
    destruct (filter not_hyphen (chars s)); [contradiction|exact Hd'].
Qed.

(** X10 -- the phone test of both customer mutations lets through
    exactly: the empty string, any string that starts with a plus
    sign, and any string whose characters are digits (of any script)
    and hyphens, with at least one digit.  A string of hyphens alone
    is refused. *)
Theorem phone_accepted_exactly (s : string) :
  ascii_alone s ->
  phone_rejected (PStr s) = Returns false <->
  s = "" \/
  (exists rest, s = String "+" rest) \/
  ((forall c, In c (chars s) -> is_digit c = true \/ c = "-") /\
   (exists c, In c (chars s) /\ is_digit c = true)).
Proof.
  intros Hs. unfold phone_rejected. simpl truthy.
  destruct (String.eqb_spec s "") as [->|Hne]; simpl.
  - split; auto.
  - rewrite <- startswith_plus, <- (isdigit_without_hyphens s Hs). split.
    + intros E. injection E as E. apply negb_false_iff, orb_true_iff in E.
      tauto.
    + intros [He|Hor]; [contradiction|].
      f_equal. apply negb_false_iff, orb_true_iff. exact Hor.
Qed.

End PhoneFacts.

Section CreateCustomerOutcomes.
Context `{Django}.

Import CreateCustomer.

Lemma pyval_eqb_str (v : pyval) (s : string) :
  pyval_eqb v (PStr s) = true -> v = PStr s.
Proof.
  destruct v; simpl; try discriminate.
  intros E. apply String.eqb_eq in E. now subst.
Qed.

Lemma filter_email_none (email : pyval) (st : Store) :
  exists_ (Customers.filter_email email st) = false ->
  Customers.filter_email email st = [].
Proof. destruct (Customers.filter_email email st); [reflexivity|discriminate]. Qed.

(** What a createCustomer call that returns a customer has done. *)
Lemma create_customer_success (name email : string) (phone : option string)
    (st st' : Store) (p : Payload) (c : Customer) :
  mutate name email phone st = (Returns p, st') ->
  customer p = Some c ->
  validate_email (PStr email) = Returns tt /\
  exists_ (Customers.filter_email (PStr email) st) = false /\
  phone_rejected (optional phone) = Returns false /\
  c = mkCustomer (next_customer st) (PStr name) (PStr email) (optional phone) /\
  st' = insert_customer c st.
Proof.
  rewrite create_customer_unfold. unfold Customers.create.
  destruct (validate_email (PStr email)) as [[]|[]]; try discriminate.
  - destruct (exists_ _); [intros E; injection E as <- <-; discriminate|].
    destruct (phone_rejected _) as [[|]|e]; try discriminate.
    + intros E; injection E as <- <-; discriminate.
    + destruct (db_fault _ _); [discriminate|].
      intros E Hc. injection E as <- <-. simpl in Hc. injection Hc as <-.
      repeat split.
  - intros E; injection E as <- <-; discriminate.
Qed.

(** X11 -- once createCustomer has returned a customer, the email
    lookup finds that customer and no other, and any further
    createCustomer call with the same email, whatever its name and
    phone, is answered "Email already exists" and writes nothing. *)
Theorem create_customer_twice (name email : string) (phone : option string)
    (st st' : Store) (p : Payload) (c : Customer) :
  mutate name email phone st = (Returns p, st') ->
  customer p = Some c ->
  customer_table st' = customer_table st ++ [c] /\
  Customers.filter_email (PStr email) st' = [c] /\
  forall name' phone',
    mutate name' email phone' st' =
    (Returns (mkPayload None "Email already exists"), st').
Proof.
  intros Hm Hc.
  destruct (create_customer_success _ _ _ _ _ _ _ Hm Hc)
    as (Hv & Hu & _ & -> & ->).
  split; [reflexivity|]. split.
  - unfold Customers.filter_email. simpl. rewrite filter_app.
    apply filter_email_none in Hu. unfold Customers.filter_email in Hu.
    rewrite Hu. simpl. now rewrite String.eqb_refl.
  - intros name' phone'. rewrite create_customer_unfold, Hv.
    rewrite filter_email_insert. simpl c_email. simpl pyval_eqb.
    now rewrite String.eqb_refl, orb_true_r.
Qed.

(** X12 -- createCustomer raises only when the database refuses the
    insert of a customer that passed all three checks, and then the
    store is the one the call found: validation failures are always
    answered, never raised. *)
Theorem create_customer_raises_only_on_refusal
    (name email : string) (phone : option string) (st st' : Store) (e : exn) :
  mutate name email phone st = (Raises e, st') ->
  e = DatabaseError /\ st' = st /\
  validate_email (PStr email) = Returns tt /\
  exists_ (Customers.filter_email (PStr email) st) = false /\
  phone_rejected (optional phone) = Returns false /\
  db_fault st (InsertCustomer (PStr name) (PStr email) (optional phone)) = true.
Proof.
  rewrite create_customer_unfold. unfold Customers.create.
  destruct (validate_email_str email) as [Hv|Hv]; rewrite Hv;
    [|discriminate].
  destruct (exists_ _); [discriminate|].
  destruct (phone_rejected_optional phone) as [b Hp]. rewrite Hp.
  destruct b; [discriminate|].
  destruct (db_fault _ _); [|discriminate].
  intros E. injection E as <- <-. repeat split.
Qed.

End CreateCustomerOutcomes.

Section BulkOutcomes.
Context `{Django}.

Import BulkCreateCustomers.

(** A turn that raises has written nothing; a turn that returns with
    a new customer has stored it under the next key, with a [str]
    email that no row had. *)
Lemma body_outcomes (idx : nat) (data : pyval) (created : list Customer)
    (errs : list string) (st st' : Store)
    (r : outcome (list Customer * list string)) :
  body idx data created errs st = (r, st') ->
  match r with
  | Raises _ => st' = st
  | Returns acc =>
      (st' = st /\ exists msg, acc = (created, errs ++ [msg])) \/
      (exists c s,
         acc = (created ++ [c], errs) /\ st' = insert_customer c st /\
         c_id c = next_customer st /\ c_email c = PStr s /\
         exists_ (Customers.filter_email (PStr s) st) = false)
  end.
Proof.
  destruct data as [| | | | |entries];
    try (rewrite body_not_dict by (intros ?; discriminate);
         intros E; injection E as <- <-; reflexivity).
  rewrite body_unfold. cbv zeta.
  destruct (validate_email _) as [[]|x] eqn:Hv.
  - destruct (validate_email_accepts _ Hv) as [s Hs]. rewrite Hs.
    destruct (exists_ _) eqn:Hu.
    + intros E. injection E as <- <-. left. eauto.
    + destruct (phone_rejected _) as [[|]|x].
      * intros E. injection E as <- <-. left. eauto.
      * destruct (db_fault _ _); intros E; injection E as <- <-;
          [reflexivity|].
        right. eexists. exists s. repeat split. exact Hu.
      * intros E. injection E as <- <-. reflexivity.
  - destruct x; intros E; injection E as <- <-; try reflexivity.
    left. eauto.
Qed.

(** A property of the store that every turn keeps is kept by the
    loop. *)
Lemma for_each_invariant (P : Store -> Prop) :
  (forall idx data created errs st acc st',
     P st -> body idx data created errs st = (Returns acc, st') -> P st') ->
  forall input idx created errs st acc st',
    P st ->
    for_each idx input created errs st = (Returns acc, st') ->
    P st'.
Proof.
  intros Hturn. induction input as [|data rest IH];
    intros idx created errs st acc st' HP.
  - simpl. unfold ret. intros E. now injection E as _ <-.
  - simpl. unfold bind.
    destruct (body idx data created errs st) as [[acc1|x] st1] eqn:Hb;
      [|discriminate].
    apply IH. exact (Hturn _ _ _ _ _ _ _ HP Hb).
Qed.

Lemma customers_unique_insert (c : Customer) (s : string) (st : Store) :
  customers_unique st ->
  c_id c = next_customer st ->
  c_email c = PStr s ->
  exists_ (Customers.filter_email (PStr s) st) = false ->
  customers_unique (insert_customer c st).
Proof.
  intros [U1 U2 U3] Hid He Hu. split; simpl.
  - rewrite map_app. simpl. apply NoDup_snoc; [assumption|].
    intros Hin. apply in_map_iff in Hin. destruct Hin as [c' [Hc' Hin]].
    pose proof (filter_email_present c' s st Hin) as Hp.
    rewrite Hp in Hu; [discriminate|congruence].
  - rewrite map_app. simpl. apply NoDup_snoc; [assumption|].
    intros Hin. apply in_map_iff in Hin. destruct Hin as [c' [Hc' Hin]].
    apply U3 in Hin. lia.
  - intros c' Hin. apply in_app_or in Hin. destruct Hin as [Hin|[<-|[]]].
    + apply U3 in Hin. lia.
    + lia.
Qed.

Lemma customers_unique_same (st st' : Store) :
  customer_table st' = customer_table st ->
  next_customer st' = next_customer st ->
  customers_unique st -> customers_unique st'.
Proof.
  intros Ht Hn [U1 U2 U3]. split; rewrite ?Ht, ?Hn; assumption.
Qed.

Lemma create_order_customers_untouched (customer_id : string)
    (product_ids : list (option string)) (order_date : option Z)
    (st st' : Store) (r : outcome CreateOrder.Payload) :
  CreateOrder.mutate customer_id product_ids order_date st = (r, st') ->
  customer_table st' = customer_table st /\
  next_customer st' = next_customer st.
Proof.
  unfold CreateOrder.mutate, Customers.get, Products.filter_pk_in,
    Products.pk_in, Orders.create, Orders.set_products. run_monad.
  repeat split_test; intros E;
    repeat match goal with
           | E : (_, _) = (_, _) |- _ => injection E as ? ?; subst
           end; try discriminate; auto.
Qed.

Lemma create_customer_refusal (name email : string) (phone : option string)
    (st st' : Store) (p : CreateCustomer.Payload) :
  CreateCustomer.mutate name email phone st = (Returns p, st') ->
  CreateCustomer.customer p = None ->
  st' = st.
Proof.
  rewrite create_customer_unfold. unfold Customers.create.
  repeat split_test; intros E Hq;
    repeat match goal with
           | E : (_, _) = (_, _) |- _ => injection E as ? ?; subst
           end; try discriminate; reflexivity.
Qed.

(** X13 -- email uniqueness is an invariant of the mutation
    interface: starting from a store in which no two customers share
    an email or a key, every store reached through answered calls of
    the four mutations is such a store. *)
Theorem reachable_customers_unique (st0 st : Store) :
  customers_unique st0 ->
  Mutation.reachable st0 st ->
  customers_unique st.
Proof.
  intros H0 Hr. induction Hr as [|st st' f p _ IH Hcall]; [assumption|].
  revert Hcall.
  destruct f as [name email phone|input|name price stock|cid ids date];
    unfold Mutation.resolve; unfold bind at 1; unfold ret.
  - destruct (CreateCustomer.mutate name email phone st) as [[q|e] st1] eqn:Hm;
      [|discriminate].
    intros E. injection E as _ <-.
    destruct (CreateCustomer.customer q) as [c|] eqn:Hq.
    + destruct (create_customer_success _ _ _ _ _ _ _ Hm Hq)
        as (_ & Hu & _ & -> & ->).
      now apply (customers_unique_insert _ email).
    + now rewrite (create_customer_refusal _ _ _ _ _ _ Hm Hq).
  - rewrite bulk_mutate_unfold.
    destruct (for_each 0 input [] [] st) as [[acc|e] st1] eqn:Hrun;
      [|discriminate].
    intros E. injection E as _ <-.
    apply (for_each_invariant customers_unique) in Hrun; [assumption| |assumption].
    intros idx data created errs s acc' s' HP Hb.
    apply body_outcomes in Hb.
    destruct Hb as [[-> _]|(c & e & _ & -> & Hid & He & Hu)]; [assumption|].
    now apply (customers_unique_insert _ e).
  - destruct (CreateProduct.mutate name price stock st) as [[q|e] st1] eqn:Hm;
      [|discriminate].
    intros E. injection E as _ <-.
    revert Hm. unfold CreateProduct.mutate, Products.create. run_monad.
    repeat split_test; intros E;
      repeat match goal with
             | E : (_, _) = (_, _) |- _ => injection E as ? ?; subst
             end; try discriminate; try assumption.
    now apply (customers_unique_same st).
  - destruct (CreateOrder.mutate cid ids date st) as [[q|e] st1] eqn:Hm;
      [|discriminate].
    intros E. injection E as _ <-.
    destruct (create_order_customers_untouched _ _ _ _ _ _ Hm) as [Ht Hn].
    now apply (customers_unique_same st).
Qed.

End BulkOutcomes.

Section BulkAsAWhole.
Context `{Django}.

Import BulkCreateCustomers.

Lemma for_each_keys (input : list pyval) :
  forall (idx : nat) (created : list Customer) (errs : list string)
         (st st' : Store) (acc : list Customer * list string),
  for_each idx input created errs st = (Returns acc, st') ->
  exists new,
    fst acc = created ++ new /\
    map c_id new =
    map (fun i => next_customer st + Z.of_nat i) (seq 0 (List.length new)) /\
    next_customer st' = next_customer st + Z.of_nat (List.length new).
Proof.
  induction input as [|data rest IH]; intros idx created errs st st' acc.
  - simpl. unfold ret. intros E. injection E as <- <-.
    exists []. simpl. rewrite app_nil_r. repeat split. lia.
  - simpl. unfold bind.
    destruct (body idx data created errs st) as [[acc1|x] st1] eqn:Hb;
      [|discriminate].
    intros Hrest. apply IH in Hrest. destruct Hrest as (new & Hacc & Hkeys & Hnext).
    apply body_outcomes in Hb.
    destruct Hb as [[-> [msg ->]]|(c & s & -> & -> & Hid & _)].
    + exists new. auto.
    + exists (c :: new). simpl in Hacc, Hkeys, Hnext.
      rewrite <- app_assoc in Hacc. simpl in Hacc.
      split; [exact Hacc|]. split.
      * simpl. rewrite Hid, Z.add_0_r. f_equal.
        rewrite Hkeys, <- seq_shift, map_map.
        apply map_ext. intros i. lia.
      * rewrite Hnext. simpl List.length. lia.
Qed.

(** X14 -- a bulkCreateCustomers call that returns has given every
    record exactly one outcome, a customer or an error entry; the
    returned customers are the rows the call added to the customer
    table, in order, under consecutive keys starting at the table's
    next key; products, orders and links are as they were. *)
Theorem bulk_one_outcome_per_record (input : list pyval) (st st' : Store)
    (p : Payload) :
  mutate input st = (Returns p, st') ->
  (List.length (customers p) + List.length (errors p)
   = List.length input)%nat /\
  customer_table st' = customer_table st ++ customers p /\
  map c_id (customers p) =
  map (fun i => next_customer st + Z.of_nat i)
      (seq 0 (List.length (customers p))) /\
  next_customer st' = next_customer st + Z.of_nat (List.length (customers p)) /\
  product_table st' = product_table st /\
  order_table st' = order_table st /\
  order_products st' = order_products st.
Proof.
  rewrite bulk_mutate_unfold.
  destruct (for_each 0 input [] [] st) as [[acc|e] st1] eqn:Hrun;
    [|discriminate].
  intros E. injection E as <- <-. simpl customers. simpl errors.
  destruct (for_each_keys _ _ _ _ _ _ _ Hrun) as (new' & Hfst & Hkeys & Hnext).
  apply for_each_returns in Hrun.
  destruct Hrun as (new & errs & -> & Ht & _ & Hlen & Hp & Ho & Hl & _).
  simpl in *. subst new'. repeat split; assumption.
Qed.

Lemma for_each_non_dict (input : list pyval) (data : pyval) :
  In data input ->
  (forall entries, data <> PDict entries) ->
  forall idx created errs st,
  exists e st', for_each idx input created errs st = (Raises e, st').
Proof.
  intros Hin Hnd. induction input as [|d rest IH]; [contradiction|].
  intros idx created errs st. simpl. unfold bind.
  destruct (body idx d created errs st) as [[acc|x] st1] eqn:Hb; [|eauto].
  destruct Hin as [->|Hin].
  - rewrite body_not_dict in Hb by assumption. discriminate.
  - apply (IH Hin).
Qed.

(** X15 -- a bulkCreateCustomers call whose input holds anything that
    is not a dict (a number, a string, a list, null) never returns:
    it raises, and the store is the one the call found, whatever the
    records before it had passed. *)
Theorem bulk_non_dict_record_aborts (input : list pyval) (data : pyval)
    (st : Store) :
  In data input ->
  (forall entries, data <> PDict entries) ->
  exists e, mutate input st = (Raises e, st).
Proof.
  intros Hin Hnd.
  destruct (for_each_non_dict input data Hin Hnd 0%nat [] [] st)
    as (e & st1 & Hrun).
  exists e. now rewrite bulk_mutate_unfold, Hrun.
Qed.

(** The turn of a record built from createCustomer's arguments does
    what the createCustomer call does. *)
Lemma body_as_record (idx : nat) (name email : string) (phone : option string)
    (created : list Customer) (errs : list string) (st : Store) :
  exists msg,
    body idx (as_record (name, email, phone)) created errs st =
    match CreateCustomer.mutate name email phone st with
    | (Returns q, st') =>
        (Returns (match CreateCustomer.customer q with
                  | Some c => (created ++ [c], errs)
                  | None => (created, errs ++ [msg])
                  end), st')
    | (Raises e, st') => (Raises e, st')
    end.
Proof.
  unfold as_record. rewrite body_unfold, create_customer_unfold.
  cbv zeta. unfold Customers.create.
  change (lookup "name" _) with (PStr name).
  change (lookup "email" _) with (PStr email).
  change (lookup "phone" _) with (CreateCustomer.optional phone).
  destruct (validate_email (PStr email)) as [[]|[]];
    try (exists EmptyString; reflexivity).
  - destruct (exists_ _); [eexists; reflexivity|].
    destruct (phone_rejected _) as [[|]|e];
      try (exists EmptyString; reflexivity).
    + eexists; reflexivity.
    + destruct (db_fault _ _); exists EmptyString; reflexivity.
  - eexists; reflexivity.
Qed.

Lemma for_each_as_records (rows : list (string * string * option string)) :
  forall (idx : nat) (created : list Customer) (errs : list string)
         (st : Store),
  match create_each rows st with
  | (Returns ps, st') =>
      exists msgs,
        for_each idx (map as_record rows) created errs st =
        (Returns (created ++ created_by ps, errs ++ msgs), st') /\
        List.length msgs = List.length (refused_by ps)
  | (Raises e, st') =>
      for_each idx (map as_record rows) created errs st = (Raises e, st')
  end.
Proof.
  induction rows as [|[[name email] phone] rest IH];
    intros idx created errs st.
  - simpl. unfold ret. exists []. now rewrite !app_nil_r.
  - simpl create_each. simpl map. simpl for_each. unfold bind.
    destruct (body_as_record idx name email phone created errs st)
      as [msg Hb].
    fold (as_record (name, email, phone)). rewrite Hb.
    destruct (CreateCustomer.mutate name email phone st)
      as [[q|e] st1]; [|reflexivity].
    destruct (CreateCustomer.customer q) as [c|] eqn:Hq; simpl fst; simpl snd.
    + specialize (IH (S idx) (created ++ [c]) errs st1).
      destruct (create_each rest st1) as [[ps|e] st2]; [|exact IH].
      destruct IH as (msgs & Hrun & Hlen). unfold ret.
      exists msgs. unfold created_by, refused_by in *. simpl.
      rewrite Hq. simpl. rewrite <- app_assoc in Hrun. auto.
    + specialize (IH (S idx) created (errs ++ [msg]) st1).
      destruct (create_each rest st1) as [[ps|e] st2]; [|exact IH].
      destruct IH as (msgs & Hrun & Hlen). unfold ret.
      exists (msg :: msgs). unfold created_by, refused_by in *. simpl.
      rewrite Hq. simpl. rewrite <- app_assoc in Hrun. simpl in Hrun.
      split; [exact Hrun|]. now rewrite Hlen.
Qed.

(** X16 -- on records that carry what createCustomer takes (a name,
    an email, an optional phone), one bulkCreateCustomers call does
    what one createCustomer call per record does: when all the single
    calls are answered, the bulk call returns their customers in the
    same order, one error entry per refused call, and leaves the same
    store; when a single call raises, the bulk call raises the same
    exception, and leaves the store it found. *)
Theorem bulk_matches_single_calls
    (rows : list (string * string * option string)) (st : Store) :
  match create_each rows st with
  | (Returns ps, st') =>
      exists msgs,
        mutate (map as_record rows) st =
        (Returns (mkPayload (created_by ps) msgs), st') /\
        List.length msgs = List.length (refused_by ps)
  | (Raises e, _) => mutate (map as_record rows) st = (Raises e, st)
  end.
Proof.
  pose proof (for_each_as_records rows 0%nat [] [] st) as Hrun.
  rewrite bulk_mutate_unfold.
  destruct (create_each rows st) as [[ps|e] st1].
  - destruct Hrun as (msgs & -> & Hlen). exists msgs. simpl. auto.
  - now rewrite Hrun.
Qed.

(** X17 -- a mutation call that raises leaves the store it found,
    with one exception: a createOrder call whose order row the
    database took before it refused the product links leaves that
    one row behind. *)
Theorem raising_call_store (f : Mutation.field) (st st' : Store) (e : exn) :
  Mutation.resolve f st = (Raises e, st') ->
  st' = st \/
  exists customer_id product_ids order_date o,
    f = Mutation.create_order customer_id product_ids order_date /\
    st' = insert_order o st /\
    o_id o = next_order st /\
    e = DatabaseError.
Proof.
  destruct f as [name email phone|input|name price stock|cid ids date];
    unfold Mutation.resolve; unfold bind at 1; unfold ret.
  - rewrite create_customer_unfold. unfold Customers.create.
    repeat split_test; intros E; try discriminate;
      repeat match goal with
             | E : (_, _) = (_, _) |- _ => injection E as ? ?; subst
             end; try discriminate; auto.
  - rewrite bulk_mutate_unfold.
    destruct (for_each 0 input [] [] st) as [[acc|x] st1]; [discriminate|].
    intros E. injection E as _ <-. auto.
  - unfold CreateProduct.mutate, Products.create. run_monad.
    repeat split_test; intros E; try discriminate;
      repeat match goal with
             | E : (_, _) = (_, _) |- _ => injection E as ? ?; subst
             end; try discriminate; auto.
  - unfold CreateOrder.mutate, Customers.get, Products.filter_pk_in,
      Products.pk_in, Orders.create, Orders.set_products. run_monad.
    repeat split_test; intros E; try discriminate;
      repeat match goal with
             | E : (_, _) = (_, _) |- _ => injection E as ? ?; subst
             end; try discriminate; auto.
    right. do 3 eexists. eexists. split; [reflexivity|].
    split; [|split]; [reflexivity..].
Qed.

End BulkAsAWhole.

Section MoreInvariants.
Context `{Django}.

Import BulkCreateCustomers.

(** X18 -- the phone test looks at the truth value first: in a record
    whose email passes both email checks, a phone that is not a [str]
    aborts the whole call with AttributeError (and the store is
    rolled back) when it is truthy, and is let through untested when
    it is falsy, so that the record is created with it. *)
Theorem bulk_phone_of_another_type
    (pre rest : list pyval) (entries : list (string * pyval))
    (st st1 : Store) (c1 : list Customer) (e1 : list string) :
  for_each 0 pre [] [] st = (Returns (c1, e1), st1) ->
  let name := lookup "name" entries in
  let email := lookup "email" entries in
  let phone := lookup "phone" entries in
  validate_email email = Returns tt ->
  exists_ (Customers.filter_email email st1) = false ->
  (forall s, phone <> PStr s) ->
  (truthy phone = true ->
   mutate (pre ++ PDict entries :: rest) st = (Raises AttributeError, st)) /\
  (truthy phone = false ->
   db_fault st1 (InsertCustomer name email phone) = false ->
   let c := mkCustomer (next_customer st1) name email phone in
   for_each 0 (pre ++ PDict entries :: rest) [] [] st =
   for_each (S (List.length pre)) rest (c1 ++ [c]) e1 (insert_customer c st1)).
Proof.
  intros Hpre name email phone Hv Hu Hns. split.
  - intros Ht.
    rewrite bulk_mutate_unfold, (for_each_turn _ _ _ _ _ _ _ Hpre), body_unfold.
    cbv zeta. fold email phone. rewrite Hv, Hu.
    unfold phone_rejected. rewrite Ht.
    destruct phone; try reflexivity. now destruct (Hns s).
  - intros Hf Hdb c.
    rewrite (for_each_turn _ _ _ _ _ _ _ Hpre), body_unfold.
    cbv zeta. fold name email phone. rewrite Hv, Hu.
    unfold phone_rejected. rewrite Hf, Hdb. reflexivity.
Qed.

Lemma referential_more_customers (st st' : Store) (new : list Customer) :
  customer_table st' = customer_table st ++ new ->
  product_table st' = product_table st ->
  order_table st' = order_table st ->
  order_products st' = order_products st ->
  referential st -> referential st'.
Proof.
  intros Hc Hp Ho Hl [R1 R2 R3 R4].
  split; unfold Orders.products_of; rewrite ?Hp, ?Ho, ?Hl; try assumption.
  intros o Hin. destruct (R1 o Hin) as [c [Hcin Hid]].
  exists c. rewrite Hc. split; [apply in_or_app; now left|assumption].
Qed.

Lemma referential_insert_product (st : Store) (p : Product) :
  consistent st ->
  p_id p = next_product st ->
  referential st -> referential (insert_product p st).
Proof.
  intros Hc Hid [R1 R2 R3 R4].
  assert (Hfresh : forall r, In r (order_products st) -> snd r <> p_id p).
  { intros r Hr. apply (link_keys_fresh st Hc) in Hr. lia. }
  split; simpl.
  - assumption.
  - intros o Hin. rewrite (products_of_new_product st p _ Hfresh).
    now apply R2.
  - assumption.
  - intros r Hr. destruct (R4 r Hr) as [q [Hq Hqid]].
    exists q. split; [apply in_or_app; now left|assumption].
Qed.

Lemma referential_new_order (st : Store) (c : Customer) (ids : list Z)
    (order_date : option Z) :
  consistent st ->
  In c (customer_table st) ->
  let matched := Products.with_keys ids st in
  let o := mkOrder (next_order st) (c_id c) (sum (map p_price matched))
                   order_date in
  exists_ matched = true ->
  referential st ->
  referential
    (with_order_products
       (order_products st ++ map (fun p => (o_id o, p)) (map p_id matched))
       (insert_order o st)).
Proof.
  intros Hc Hcin matched o Hex [R1 R2 R3 R4].
  assert (Hfresh : forall r, In r (order_products st) -> fst r <> o_id o).
  { intros r Hr. apply (link_keys_fresh st Hc) in Hr. simpl. lia. }
  split.
  - simpl. intros o' Hin. apply in_app_or in Hin.
    destruct Hin as [Hin|[<-|[]]]; [now apply R1|].
    exists c. auto.
  - intros o' Hin. simpl order_table in Hin. apply in_app_or in Hin.
    destruct Hin as [Hin|[<-|[]]].
    + rewrite products_of_old_order; [now apply R2|].
      apply (order_keys_fresh st Hc) in Hin. simpl. lia.
    + unfold matched. rewrite (products_of_new_order st o ids Hfresh).
      fold matched. destruct matched; [discriminate|discriminate].
  - simpl. intros r Hr. apply in_app_or in Hr. destruct Hr as [Hr|Hr].
    + destruct (R3 r Hr) as [o' [Ho' Hid]].
      exists o'. split; [apply in_or_app; now left|assumption].
    + apply in_map_iff in Hr. destruct Hr as [id [<- _]].
      exists o. split; [apply in_or_app; right; now left|reflexivity].
  - simpl. intros r Hr. apply in_app_or in Hr. destruct Hr as [Hr|Hr].
    + now apply R4.
    + apply in_map_iff in Hr. destruct Hr as [id [<- Hid]].
      apply in_map_iff in Hid. destruct Hid as [q [<- Hq]].
      apply filter_pk_in_In in Hq. exists q. tauto.
Qed.

(** X19 -- references stay whole: starting from a consistent store in
    which every order has an existing customer and at least one
    product and every link row joins an existing order and an
    existing product, every store reached through answered mutation
    calls is such a store. *)
Theorem reachable_referential (st0 st : Store) :
  consistent st0 ->
  referential st0 ->
  Mutation.reachable st0 st ->
  referential st.
Proof.
  intros C0 R0 Hr. induction Hr as [|st st' f p Hprev IH Hcall]; [assumption|].
  pose proof (reachable_consistent st0 st C0 Hprev) as Hc.
  revert Hcall.
  destruct f as [name email phone|input|name price stock|cid ids date];
    unfold Mutation.resolve; unfold bind at 1; unfold ret.
  - destruct (CreateCustomer.mutate name email phone st) as [[q|e] st1] eqn:Hm;
      [|discriminate].
    intros E. injection E as _ <-.
    destruct (CreateCustomer.customer q) as [c|] eqn:Hq.
    + destruct (create_customer_success _ _ _ _ _ _ _ Hm Hq)
        as (_ & _ & _ & _ & ->).
      now apply (referential_more_customers st _ [c]).
    + now rewrite (create_customer_refusal _ _ _ _ _ _ Hm Hq).
  - rewrite bulk_mutate_unfold.
    destruct (for_each 0 input [] [] st) as [[acc|e] st1] eqn:Hrun;
      [|discriminate].
    intros E. injection E as _ <-.
    apply for_each_returns in Hrun.
    destruct Hrun as (new & errs & _ & Ht & _ & _ & Hp & Ho & Hl & _).
    now apply (referential_more_customers st st1 new).
  - destruct (CreateProduct.mutate name price stock st) as [[q|e] st1] eqn:Hm;
      [|discriminate].
    intros E. injection E as _ <-.
    revert Hm. unfold CreateProduct.mutate, Products.create. run_monad.
    repeat split_test; intros E;
      repeat match goal with
             | E : (_, _) = (_, _) |- _ => injection E as ? ?; subst
             end; try discriminate; try assumption.
    now apply referential_insert_product.
  - destruct (CreateOrder.mutate cid ids date st) as [[q|e] st1] eqn:Hm;
      [|discriminate].
    intros E. injection E as _ <-.
    destruct (CreateOrder.order q) as [o|] eqn:Hq.
    + destruct (create_order_success _ _ _ _ _ _ _ Hm Hq)
        as (c & keys & Hget & _ & Hex & _ & -> & Hset & _).
      apply get_customer_returns in Hget. destruct Hget as (_ & Hcin & _).
      apply set_products_fresh in Hset.
      * rewrite Hset. simpl order_products.
        now apply (referential_new_order st c keys date).
      * simpl. intros r Hr. apply (link_keys_fresh st Hc) in Hr. lia.
    + now rewrite (create_order_refusal _ _ _ _ _ _ Hm Hq).
Qed.

End MoreInvariants.

(** * The further properties at work on the sample data *)

Lemma seeded_customers_unique : customers_unique seeded.
Proof.
  split; simpl.
  - repeat constructor; simpl; intuition discriminate.
  - repeat constructor; simpl; intuition discriminate.
  - intros c [<-|[<-|[]]]; simpl; lia.
Qed.

Lemma seeded_referential : referential seeded.
Proof.
  split; simpl.
  - intros o [<-|[]]. exists alice. split; [now left|reflexivity].
  - intros o [<-|[]]. discriminate.
  - intros r [<-|[<-|[]]]; eexists; (split; [now left|reflexivity]).
  - intros r [<-|[<-|[]]].
    + exists laptop. split; [now left|reflexivity].
    + exists phone. split; [right; now left|reflexivity].
Qed.

(** The store after Bob has ordered both products, and after Carol
    has been added in bulk. *)
Lemma seeded_then_order :
  @Mutation.reachable lenient seeded
     (snd (@CreateOrder.mutate lenient "2" [Some "2"; Some "1"] None seeded)).
Proof.
  apply (@Mutation.reach_call lenient seeded seeded _
           (Mutation.create_order "2" [Some "2"; Some "1"] None)
           (Mutation.OrderPayload
              (CreateOrder.mkPayload
                 (Some (mkOrder 2 2 (99999 + 49999) None))
                 "Order created successfully"))).
  - apply Mutation.reach_start.
  - reflexivity.
Qed.

Lemma seeded_then_bulk :
  @Mutation.reachable lenient seeded
     (snd (@BulkCreateCustomers.mutate lenient
             [record "Carol" "carol@example.com" PNone;
              record "Bobby" "bob@example.com" PNone] seeded)).
Proof.
  apply (@Mutation.reach_call lenient seeded seeded _
           (Mutation.bulk_create_customers
              [record "Carol" "carol@example.com" PNone;
               record "Bobby" "bob@example.com" PNone])
           (Mutation.CustomersPayload
              (BulkCreateCustomers.mkPayload
                 [mkCustomer 3 (PStr "Carol") (PStr "carol@example.com") PNone]
                 ["Row 2: Email already exists (bob@example.com)"]))).
  - apply Mutation.reach_start.
  - reflexivity.
Qed.

Lemma create_product_rejections_witness :
  @CreateProduct.mutate lenient "Widget" 0%float (Some (-1)) seeded =
  (Returns (CreateProduct.mkPayload None "Price must be positive"), seeded) /\
  @CreateProduct.mutate lenient "Widget" (-0.5)%float None seeded =
  (Returns (CreateProduct.mkPayload None "Price must be positive"), seeded) /\
  @CreateProduct.mutate lenient "Widget" 4.99%float (Some (-1)) seeded =
  (Returns (CreateProduct.mkPayload None "Stock cannot be negative"), seeded).
Proof.
  split; [|split].
  - apply (proj1 (@create_product_rejections lenient "Widget" 0%float
                    (Some (-1)) seeded)).
    reflexivity.
  - apply (proj1 (@create_product_rejections lenient "Widget" (-0.5)%float
                    None seeded)).
    reflexivity.
  - apply (proj2 (@create_product_rejections lenient "Widget" 4.99%float
                    (Some (-1)) seeded) (-1)); [reflexivity|reflexivity|lia].
Defined.

(** A price of 0.004 passes the test and is kept as 0.00. *)
Lemma create_product_outcomes_witness :
  let row := mkProduct 3 "Widget" 0 3 in
  exists n,
    (0.004 <=? 0)%float = false /\ Some 3 = Some n /\ 0 <= n /\
    Products.mkObject 3 "Widget" 0.004 3 =
    Products.mkObject (next_product seeded) "Widget" 0.004 n /\
    insert_product row seeded =
    insert_product
      (mkProduct (next_product seeded) "Widget" (@price_column lenient 0.004) n)
      seeded /\
    "Product created successfully" = "Product created successfully".
Proof.
  intros row.
  exact (@create_product_outcomes lenient "Widget" 0.004 (Some 3) seeded
           (insert_product row seeded)
           (Returns (CreateProduct.mkPayload
                       (Some (Products.mkObject 3 "Widget" 0.004 3))
                       "Product created successfully"))
           eq_refl).
Defined.

Lemma seeded_has_alice : @names_customer lenient "1" seeded.
Proof.
  exists 1, alice. split; [reflexivity|]. split; [reflexivity|].
  split; [now left|reflexivity].
Qed.

Lemma seeded_has_bob : @names_customer lenient "2" seeded.
Proof.
  exists 2, bob. split; [reflexivity|]. split; [reflexivity|].
  split; [right; now left|reflexivity].
Qed.

Lemma refusing_seeded_has_bob : @names_customer refusing "2" seeded.
Proof.
  exists 2, bob. split; [reflexivity|]. split; [reflexivity|].
  split; [right; now left|reflexivity].
Qed.

Lemma create_order_no_products_witness :
  @CreateOrder.mutate lenient "1" [Some "7"; None; Some "8"] None seeded =
  (Returns (CreateOrder.mkPayload None "No valid products found"), seeded) /\
  @CreateOrder.mutate lenient "1" [] None seeded =
  (Returns (CreateOrder.mkPayload None "No valid products found"), seeded) /\
  @CreateOrder.mutate lenient "1" [Some "1"; Some "abc"] None seeded =
  (Raises ValueError, seeded) /\
  @CreateOrder.mutate lenient "1" [Some "9223372036854775808"] None seeded =
  (Raises OverflowError, seeded).
Proof.
  split; [|split; [|split]].
  - apply (proj1 (@create_order_no_products lenient "1"
                    [Some "7"; None; Some "8"] None seeded seeded_has_alice)
             [7; 8]).
    + reflexivity.
    + simpl. intros p [<-|[<-|[]]]; simpl; intuition discriminate.
  - apply (proj1 (@create_order_no_products lenient "1" [] None seeded
                    seeded_has_alice) []).
    + reflexivity.
    + intros p _ [].
  - apply (proj2 (@create_order_no_products lenient "1"
                    [Some "1"; Some "abc"] None seeded seeded_has_alice)).
    reflexivity.
  - apply (proj2 (@create_order_no_products lenient "1"
                    [Some "9223372036854775808"] None seeded seeded_has_alice)).
    reflexivity.
Defined.

Lemma create_order_unknown_product_witness :
  @CreateOrder.mutate lenient "1" [Some "1"; Some "7"] None seeded =
  (Returns (CreateOrder.mkPayload None "Some product IDs are invalid"), seeded)
  /\
  @CreateOrder.mutate lenient "1" [Some "1"; None] None seeded =
  (Returns (CreateOrder.mkPayload None "Some product IDs are invalid"), seeded).
Proof.
  split.
  - apply (@create_order_unknown_product lenient "1" [Some "1"; Some "7"] None
             seeded [1; 7]).
    + apply (product_keys_unique seeded seeded_consistent).
    + exact seeded_has_alice.
    + reflexivity.
    + exists laptop. split; now left.
    + left. exists 7. split; [right; now left|].
      simpl. intros p [<-|[<-|[]]]; discriminate.
  - apply (@create_order_unknown_product lenient "1" [Some "1"; None] None
             seeded [1]).
    + apply (product_keys_unique seeded seeded_consistent).
    + exact seeded_has_alice.
    + reflexivity.
    + exists laptop. split; now left.
    + right. right. now left.
Defined.

Lemma create_order_succeeds_iff_witness :
  let o := mkOrder 2 2 (49999 + 99999) None in
  @CreateOrder.mutate lenient "2" [Some "2"; Some "1"] None seeded =
  (Returns (CreateOrder.mkPayload (Some o) "Order created successfully"),
   with_order_products [(1, 1); (1, 2); (2, 1); (2, 2)]
     (insert_order o seeded)).
Proof.
  intros o.
  apply (proj2 (@create_order_succeeds_iff lenient "2" [Some "2"; Some "1"]
                  None seeded seeded_consistent) [2; 1] 2); try reflexivity.
  split; [exact seeded_has_bob|]. split; [reflexivity|].
  split; [reflexivity|]. split; [discriminate|]. split.
  - repeat constructor; simpl; intuition discriminate.
  - intros key [<-|[<-|[]]].
    + exists phone. split; [right; now left|reflexivity].
    + exists laptop. split; [now left|reflexivity].
Defined.

Lemma create_order_failure_writes_nothing_witness :
  snd (@CreateOrder.mutate lenient "007" [Some "1"] None seeded) = seeded /\
  ("Invalid customer ID 007" = ("Invalid customer ID " ++ "007")%string \/
   "Invalid customer ID 007" = "No valid products found" \/
   "Invalid customer ID 007" = "Some product IDs are invalid").
Proof.
  exact (@create_order_failure_writes_nothing lenient "007" [Some "1"] None
           seeded
           (snd (@CreateOrder.mutate lenient "007" [Some "1"] None seeded))
           (CreateOrder.mkPayload None "Invalid customer ID 007")
           eq_refl eq_refl).
Defined.

Lemma create_order_ids_rearranged_witness :
  @CreateOrder.mutate lenient "2" [Some "1"; Some "2"] None seeded =
  @CreateOrder.mutate lenient "2" [Some "2"; Some "1"] None seeded.
Proof.
  apply (@create_order_ids_rearranged lenient "2" [Some "1"; Some "2"]
           [Some "2"; Some "1"] None seeded).
  apply perm_swap.
Defined.

Lemma create_order_keeps_row_without_links_witness :
  let o := mkOrder 2 2 (99999 + 49999) None in
  @CreateOrder.mutate refusing "2" [Some "1"; Some "2"] None seeded =
  (Raises DatabaseError, insert_order o seeded) /\
  In o (order_table (insert_order o seeded)) /\
  Orders.products_of (insert_order o seeded) 2 = [].
Proof.
  intros o.
  apply (@create_order_keeps_row_without_links refusing "2"
           [Some "1"; Some "2"] None seeded [1; 2] 2
           seeded_consistent refusing_seeded_has_bob); reflexivity.
Defined.

Lemma create_order_frame_witness :
  let st' :=
    snd (@CreateOrder.mutate lenient "2" [Some "2"; Some "1"] None seeded) in
  customer_table st' = [alice; bob] /\
  product_table st' = [laptop; phone] /\
  Orders.products_of st' 1 = [laptop; phone].
Proof.
  intros st'.
  destruct (@create_order_frame lenient "2" [Some "2"; Some "1"] None seeded st'
              (fst (@CreateOrder.mutate lenient "2" [Some "2"; Some "1"] None
                      seeded))
              eq_refl)
    as (Hc & Hp & _ & _ & _ & Hold).
  split; [exact Hc|]. split; [exact Hp|].
  apply (Hold seeded_consistent (mkOrder 1 1 (99999 + 49999) None)).
  now left.
Defined.

(** Full-width digits are digits to [isdigit]. *)
Lemma phone_accepted_exactly_witness :
  ascii_alone "１２-３" /\
  @phone_rejected lenient (PStr "１２-３") = Returns false.
Proof.
  assert (Hs : ascii_alone "１２-３").
  { intros b tail Hin Hb. simpl in Hin.
    destruct Hin as [E|[E|[E|[E|[]]]]]; injection E as <- <-;
      first [reflexivity|discriminate]. }
  split; [exact Hs|].
  apply (proj2 (@phone_accepted_exactly lenient "１２-３" Hs)).
  right. right. split.
  - simpl. intros c [<-|[<-|[<-|[<-|[]]]]]; auto.
  - exists "１". split; [now left|reflexivity].
Defined.

Lemma create_customer_twice_witness :
  let carol := mkCustomer 3 (PStr "Carol") (PStr "carol@example.com") PNone in
  Customers.filter_email (PStr "carol@example.com")
    (insert_customer carol seeded) = [carol] /\
  @CreateCustomer.mutate lenient "Caroline" "carol@example.com" (Some "+44")
     (insert_customer carol seeded) =
  (Returns (CreateCustomer.mkPayload None "Email already exists"),
   insert_customer carol seeded).
Proof.
  intros carol.
  destruct (@create_customer_twice lenient "Carol" "carol@example.com" None
              seeded (insert_customer carol seeded)
              (CreateCustomer.mkPayload (Some carol)
                 "Customer created successfully")
              carol eq_refl eq_refl) as (_ & Hfind & Hagain).
  split; [exact Hfind|apply Hagain].
Defined.

Lemma create_customer_raises_only_on_refusal_witness :
  DatabaseError = DatabaseError /\
  snd (@CreateCustomer.mutate refusing "Carol" "carol@example.com" None seeded)
  = seeded.
Proof.
  destruct (@create_customer_raises_only_on_refusal refusing
              "Carol" "carol@example.com" None seeded
              (snd (@CreateCustomer.mutate refusing "Carol"
                      "carol@example.com" None seeded))
              DatabaseError eq_refl) as (He & Hst & _).
  split; assumption.
Defined.

Lemma reachable_customers_unique_witness :
  customers_unique
    (snd (@BulkCreateCustomers.mutate lenient
            [record "Carol" "carol@example.com" PNone;
             record "Bobby" "bob@example.com" PNone] seeded)).
Proof.
  exact (@reachable_customers_unique lenient seeded _
           seeded_customers_unique seeded_then_bulk).
Defined.

Lemma bulk_one_outcome_per_record_witness :
  let input := [record "Carol" "carol@example.com" PNone;
                record "Bobby" "bob@example.com" PNone;
                record "Dave" "dave@example.com" (PStr "555-0100")] in
  let p := BulkCreateCustomers.mkPayload
             [mkCustomer 3 (PStr "Carol") (PStr "carol@example.com") PNone;
              mkCustomer 4 (PStr "Dave") (PStr "dave@example.com")
                         (PStr "555-0100")]
             ["Row 2: Email already exists (bob@example.com)"] in
  (List.length (BulkCreateCustomers.customers p)
   + List.length (BulkCreateCustomers.errors p) = 3)%nat /\
  map c_id (BulkCreateCustomers.customers p) = [3; 4] /\
  next_customer (snd (@BulkCreateCustomers.mutate lenient input seeded)) = 5.
Proof.
  intros input p.
  destruct (@bulk_one_outcome_per_record lenient input seeded
              (snd (@BulkCreateCustomers.mutate lenient input seeded)) p
              eq_refl) as (Hlen & _ & Hkeys & Hnext & _).
  split; [exact Hlen|]. split; [exact Hkeys|exact Hnext].
Defined.

Lemma bulk_non_dict_record_aborts_witness :
  exists e,
    @BulkCreateCustomers.mutate lenient
       [record "Carol" "carol@example.com" PNone; PStr "Dave"] seeded =
    (Raises e, seeded).
Proof.
  apply (@bulk_non_dict_record_aborts lenient
           [record "Carol" "carol@example.com" PNone; PStr "Dave"]
           (PStr "Dave") seeded).
  - right. now left.
  - intros entries. discriminate.
Defined.

Lemma raising_call_store_witness :
  let o := mkOrder 2 2 (99999 + 49999) None in
  insert_order o seeded = seeded \/
  exists customer_id product_ids order_date o',
    Mutation.create_order "2" [Some "1"; Some "2"] None =
    Mutation.create_order customer_id product_ids order_date /\
    insert_order o seeded = insert_order o' seeded /\
    o_id o' = next_order seeded /\
    DatabaseError = DatabaseError.
Proof.
  intros o.
  exact (@raising_call_store refusing
           (Mutation.create_order "2" [Some "1"; Some "2"] None)
           seeded (insert_order o seeded) DatabaseError eq_refl).
Defined.

Lemma bulk_phone_of_another_type_witness :
  @BulkCreateCustomers.mutate lenient
     ([record "Carol" "carol@example.com" PNone]
        ++ record "Dave" "dave@example.com" (PInt 5550100) :: []) seeded =
  (Raises AttributeError, seeded) /\
  @BulkCreateCustomers.for_each lenient 0
     ([record "Carol" "carol@example.com" PNone]
        ++ record "Dave" "dave@example.com" (PInt 0) :: []) [] [] seeded =
  @BulkCreateCustomers.for_each lenient 2 []
     [mkCustomer 3 (PStr "Carol") (PStr "carol@example.com") PNone;
      mkCustomer 4 (PStr "Dave") (PStr "dave@example.com") (PInt 0)]
     []
     (insert_customer
        (mkCustomer 4 (PStr "Dave") (PStr "dave@example.com") (PInt 0))
        (insert_customer
           (mkCustomer 3 (PStr "Carol") (PStr "carol@example.com") PNone)
           seeded)).
Proof.
  split.
  - refine (proj1 (@bulk_phone_of_another_type lenient
                     [record "Carol" "carol@example.com" PNone] []
                     [("name", PStr "Dave"); ("email", PStr "dave@example.com");
                      ("phone", PInt 5550100)]
                     seeded _ _ _ eq_refl eq_refl eq_refl _) eq_refl).
    intros s. discriminate.
  - refine (proj2 (@bulk_phone_of_another_type lenient
                     [record "Carol" "carol@example.com" PNone] []
                     [("name", PStr "Dave"); ("email", PStr "dave@example.com");
                      ("phone", PInt 0)]
                     seeded _ _ _ eq_refl eq_refl eq_refl _) eq_refl eq_refl).
    intros s. discriminate.
Defined.

Lemma reachable_referential_witness :
  referential
    (snd (@CreateOrder.mutate lenient "2" [Some "2"; Some "1"] None seeded)).
Proof.
  exact (@reachable_referential lenient seeded _
           seeded_consistent seeded_referential seeded_then_order).
Defined.
